(** * directus-typescript-gen: the command line tool, embedded and verified

    The repository holds two builds of the same command line program:

    - [src/cli.ts], the current TypeScript source.  It renames every schema
      key ("Items..." becomes "App...", anything else gets "Directus" in
      front), emits one exported alias per schema and wraps the whole output
      in [declare global { ... }].  It is module [CliTs] below (the spec's
      "Variant A").
    - the compiled [cli.js] of an earlier revision.  It names every property
      after the schema's [x-collection] annotation, emits no alias and does
      not wrap.  It is module [CliJs] below (the spec's "Variant B").

    Both are straight-line scripts: parse the arguments, obtain a token,
    fetch the OpenAPI document, refuse it when it carries errors, optionally
    dump it, run [openapi-typescript] on it, walk [components.schemas] and
    write the result.  The pure part (the walk and the text assembly) is
    embedded as functions on strings and lists; the effectful part as a
    small trace-and-exception monad whose events are the network calls,
    console output, converter calls and file writes of the script. *)

From Stdlib Require Import String Ascii List Bool Arith NArith Lia Permutation Sorted.
Import ListNotations.

Open Scope string_scope.

(** ** JavaScript strings and arrays *)

(** A string is kept as the bytes of its UTF-8 form.  The script only tests
    for the ASCII prefix "Items" and cuts it off, one byte per character, and
    otherwise concatenates, so nothing depends on the encoding. *)

Module Js.

(** The line feed and the double quote of the templates. *)
Definition LF : string := String (ascii_of_nat 10) EmptyString.
Definition DQ : string := String (ascii_of_nat 34) EmptyString.

(** [s.startsWith(searchString)] *)
Fixpoint startsWith (s searchString : string) {struct searchString} : bool :=
  match searchString with
  | EmptyString => true
  | String c rest =>
      match s with
      | EmptyString => false
      | String d s' => Ascii.eqb d c && startsWith s' rest
      end
  end.

(** [s.slice(start)] for a non-negative [start] *)
Fixpoint slice (s : string) (start : nat) {struct start} : string :=
  match start with
  | O => s
  | S n =>
      match s with
      | EmptyString => EmptyString
      | String _ s' => slice s' n
      end
  end.

(** [arr.push(x)]: the array grows at its end. *)
Definition push {A : Type} (arr : list A) (x : A) : list A := (arr ++ [x])%list.

(** [arr.join(sep)] on an array of strings *)
Definition join (arr : list string) (sep : string) : string :=
  String.concat sep arr.

(** What a template literal prints for a value that is a string or
    [undefined]. *)
Definition interpolate (v : option string) : string :=
  match v with
  | Some s => s
  | None => "undefined"
  end.

End Js.

(** ** The fetched document *)

(** A value of type [unknown]: what the server puts in its error list. *)
#[warnings="-register-all"] Inductive JsValue : Type :=
| JsNull
| JsBool (b : bool)
| JsNumber (n : nat)
| JsString (s : string)
| JsArray (items : list JsValue)
| JsObject (props : list (string * JsValue)).

(** One entry of [components.schemas].  The tool reads a single field of it,
    the [x-collection] annotation; it is [None] when the entry has no such
    field (the lookup then yields [undefined]). *)
Record Schema : Type := mkSchema { x_collection : option string }.

(** [components.schemas]: an object used as a map from schema key to schema.
    It is kept as the list of its own properties in the order in which they
    were created; for a parsed JSON text that is the order of the members
    of the text.  Each key occurs once. *)
Definition Schemas : Type := list (string * Schema).

Definition wellFormed (o : Schemas) : Prop := NoDup (map fst o).

(** The order in which the runtime enumerates the own string keys of an
    ordinary object ([OrdinaryOwnPropertyKeys]): first the keys that are
    array indices, in ascending numeric order, then all other keys, in the
    order of their creation.  An array index is the canonical decimal
    numeral of an integer from 0 to 2^32 - 2: digits only and no leading
    zero. *)
Definition digit (c : ascii) : option N :=
  let n := N_of_ascii c in
  if (N.leb 48 n && N.leb n 57)%bool then Some (n - 48)%N else None.

Fixpoint decimal (s : string) (acc : N) : option N :=
  match s with
  | EmptyString => Some acc
  | String c rest =>
      match digit c with
      | Some d => decimal rest (10 * acc + d)%N
      | None => None
      end
  end.

Definition arrayIndex (key : string) : option N :=
  match key with
  | EmptyString => None
  | String c rest =>
      if Ascii.eqb c "0"
      then match rest with EmptyString => Some 0%N | String _ _ => None end
      else match decimal key 0 with
           | Some n => if N.leb n 4294967294 then Some n else None
           | None => None
           end
  end.

Definition isArrayIndex (key : string) : bool :=
  match arrayIndex key with Some _ => true | None => false end.

Fixpoint insertIndexed (n : N) (e : string * Schema)
  (l : list (N * (string * Schema))) : list (N * (string * Schema)) :=
  match l with
  | [] => [(n, e)]
  | (m, e') :: rest =>
      if N.leb n m then (n, e) :: l else (m, e') :: insertIndexed n e rest
  end.

(** The properties whose key is an array index, by ascending index. *)
Definition indexedProperties (o : Schemas) : list (N * (string * Schema)) :=
  fold_right (fun e acc =>
                match arrayIndex (fst e) with
                | Some n => insertIndexed n e acc
                | None => acc
                end) [] o.

(** The other properties, as created. *)
Definition namedProperties (o : Schemas) : list (string * Schema) :=
  filter (fun e => negb (isArrayIndex (fst e))) o.

Definition Object_entries (o : Schemas) : list (string * Schema) :=
  (map snd (indexedProperties o) ++ namedProperties o)%list.

Definition Object_keys (o : Schemas) : list string := map fst (Object_entries o).

(** [SpecResponse]: the parsed body of [GET /server/specs/oas].  [errors] is
    [None] when the object has no [errors] property; [components_schemas] is
    [None] when [spec.components.schemas] cannot be read. *)
Record SpecResponse : Type := mkSpecResponse {
  errors : option (list JsValue);
  components_schemas : option Schemas
}.

(** ** Arguments, events and the script monad *)

(** The parsed command line ([Argv], after [yargs] and [zod]). *)
Record Argv : Type := mkArgv {
  host : string;
  email : string;
  password : string;
  passwordIsStaticToken : bool;
  appTypeName : string;
  directusTypeName : string;
  allTypeName : string;
  specOutFile : option string;
  outFile : string
}.

Inductive Exn : Type :=
| Error (message : string)
| TypeError (message : string)
| Rejected (reason : string).

Inductive Outcome (A : Type) : Type :=
| Returns (a : A)
| Throws (e : Exn).

Arguments Returns {A} a.
Arguments Throws {A} e.

(** The object handed to [JSON.stringify] for the login request. *)
Record Credentials : Type := mkCredentials {
  cred_email : string;
  cred_password : string;
  cred_mode : string
}.

Record Request : Type := mkRequest {
  url : string;
  method : string;
  headers : list (string * string);
  body : option Credentials
}.

(** What [writeFile] is given: the pretty-printed document or the text. *)
Inductive FileData : Type :=
| JSON_stringify (spec : SpecResponse) (indent : nat)
| Text (source : string).

Inductive Event : Type :=
| Fetch (request : Request)
| ConsoleError (errs : list JsValue)
| OpenApiTs (spec : SpecResponse)
| WriteFile (path : string) (data : FileData) (encoding : string).

(** Everything outside the script: the URL parser, the two endpoints, the
    converter and the file system.  A [Throws] answer is a call that throws
    or a promise that rejects. *)
Record World : Type := mkWorld {
  new_URL_href : string -> string -> Outcome string;
  login_access_token : Request -> Outcome (option string);
  oas_json : Request -> Outcome SpecResponse;
  openApiTs : SpecResponse -> Outcome string;
  writeFile : string -> FileData -> Outcome unit;
  path_resolve_cwd : string -> string
}.

(** A run yields the events in the order they happened and how it ended. *)
Definition M (A : Type) : Type := (list Event * Outcome A)%type.

Definition ret {A : Type} (a : A) : M A := ([], Returns a).

Definition throw {A : Type} (e : Exn) : M A := ([], Throws e).

Definition bind {A B : Type} (m : M A) (k : A -> M B) : M B :=
  match m with
  | (t1, Returns a) => let '(t2, r) := k a in ((t1 ++ t2)%list, r)
  | (t1, Throws e) => (t1, Throws e)
  end.

Definition emit (e : Event) : M unit := ([e], Returns tt).

Definition await {A : Type} (o : Outcome A) : M A := ([], o).

Notation "x <- m ;; k" := (bind m (fun x => k))
  (at level 61, m at next level, right associativity).
Notation "m ;;; k" := (bind m (fun _ => k))
  (at level 61, right associativity).

(** ** The part both builds share: token, fetch, validation, dump *)

Module Script.
Import Js.

Definition loginRequest (href : string) (argv : Argv) : Request :=
  mkRequest href "post" [("Content-Type", "application/json")]
            (Some (mkCredentials (email argv) (password argv) "json")).

Definition specRequest (argv : Argv) (token : option string) : Request :=
  mkRequest (host argv ++ "/server/specs/oas") "get"
            [("Authorization", "Bearer " ++ interpolate token)] None.

(** [let token; if (passwordIsStaticToken) ... else ...] *)
Definition token (w : World) (argv : Argv) : M (option string) :=
  if passwordIsStaticToken argv
  then ret (Some (password argv))
  else
    href <- await (new_URL_href w "/auth/login" (host argv)) ;;
    emit (Fetch (loginRequest href argv)) ;;;
    await (login_access_token w (loginRequest href argv)).

(** [const spec = await (await fetch(...)).json()] *)
Definition spec (w : World) (argv : Argv) (tok : option string) : M SpecResponse :=
  emit (Fetch (specRequest argv tok)) ;;;
  await (oas_json w (specRequest argv tok)).

(** ['errors' in spec && spec.errors.length] *)
Definition hasErrors (s : SpecResponse) : bool :=
  match errors s with
  | Some errs => negb (Nat.eqb (List.length errs) 0)
  | None => false
  end.

Definition assertSpecHasNoErrors (s : SpecResponse) : M unit :=
  if hasErrors s
  then
    emit (ConsoleError (match errors s with Some errs => errs | None => [] end)) ;;;
    throw (Error "Could not generate TypeScript definitions")
  else ret tt.

(** [await writeFile(resolve(process.cwd(), file), data, {encoding})] *)
Definition write (w : World) (file : string) (data : FileData) : M unit :=
  emit (WriteFile (path_resolve_cwd w file) data "utf-8") ;;;
  await (writeFile w (path_resolve_cwd w file) data).

(** [if (specOutFile) { await writeFile(...) }] *)
Definition dumpSpec (w : World) (argv : Argv) (s : SpecResponse) : M unit :=
  match specOutFile argv with
  | Some file =>
      if String.eqb file EmptyString then ret tt
      else write w file (JSON_stringify s 2)
  | None => ret tt
  end.

(** [await openApiTs(spec)] *)
Definition baseSource (w : World) (s : SpecResponse) : M string :=
  emit (OpenApiTs s) ;;;
  await (openApiTs w s).

(** Reading [spec.components.schemas] for the loop. *)
Definition schemasOf (s : SpecResponse) : M Schemas :=
  match components_schemas s with
  | Some o => ret o
  | None => throw (TypeError "Cannot read properties of undefined")
  end.

(** The script up to the fetched document. *)
Definition fetched (w : World) (argv : Argv) : M SpecResponse :=
  tok <- token w argv ;;
  spec w argv tok.

(** The text [components["schemas"]["<schemaKey>"];] that ends every
    generated property and alias. *)
Definition schemaRef (schemaKey : string) : string :=
  "components[" ++ DQ ++ "schemas" ++ DQ ++ "][" ++ DQ ++ schemaKey ++ DQ ++ "];".

(** [`export type ${typeName} = {\n${properties.join(`\n`)}\n};\n`] *)
Definition collectionsType (typeName : string) (properties : list string) : string :=
  "export type " ++ typeName ++ " = {" ++ LF ++ join properties LF ++ LF ++ "};" ++ LF.

(** [`export type ${all} = ${directus} & ${app};\n`] *)
Definition allCollectionsType (argv : Argv) : string :=
  "export type " ++ allTypeName argv ++ " = "
    ++ directusTypeName argv ++ " & " ++ appTypeName argv ++ ";" ++ LF.

End Script.

(** ** [src/cli.ts] *)

Module CliTs.
Import Js Script.

Definition isAppCollection (schemaKey : string) : bool :=
  startsWith schemaKey "Items".

Definition formatedSchemaKey (schemaKey : string) : string :=
  if startsWith schemaKey "Items"
  then "App" ++ slice schemaKey 5
  else "Directus" ++ schemaKey.

Definition propertyLine (schemaKey : string) : string :=
  "  " ++ DQ ++ formatedSchemaKey schemaKey ++ DQ ++ ": " ++ schemaRef schemaKey.

Definition exportLine (schemaKey : string) : string :=
  "export type " ++ formatedSchemaKey schemaKey ++ " = " ++ schemaRef schemaKey.

(** The three arrays the loop fills. *)
Record Arrays : Type := mkArrays {
  exportAppCollectionsProperties : list string;
  exportDirectusCollectionsProperties : list string;
  exportAllCollectionsLines : list string
}.

Definition emptyArrays : Arrays := mkArrays [] [] [].

(** One iteration of [for (let schemaKey of Object.keys(...))]. *)
Definition loopBody (st : Arrays) (schemaKey : string) : Arrays :=
  let st1 :=
    if isAppCollection schemaKey
    then mkArrays (push (exportAppCollectionsProperties st) (propertyLine schemaKey))
                  (exportDirectusCollectionsProperties st)
                  (exportAllCollectionsLines st)
    else mkArrays (exportAppCollectionsProperties st)
                  (push (exportDirectusCollectionsProperties st) (propertyLine schemaKey))
                  (exportAllCollectionsLines st) in
  if String.eqb schemaKey "x-metadata"
  then st1
  else mkArrays (exportAppCollectionsProperties st1)
                (exportDirectusCollectionsProperties st1)
                (push (exportAllCollectionsLines st1) (exportLine schemaKey)).

Definition collect (schemas : Schemas) : Arrays :=
  fold_left loopBody (Object_keys schemas) emptyArrays.

Definition exportAllCollectionsTypes (schemas : Schemas) : string :=
  join (exportAllCollectionsLines (collect schemas)) LF.

Definition exportAppCollectionsType (argv : Argv) (schemas : Schemas) : string :=
  collectionsType (appTypeName argv) (exportAppCollectionsProperties (collect schemas)).

Definition exportDirectusCollectionsType (argv : Argv) (schemas : Schemas) : string :=
  collectionsType (directusTypeName argv)
                  (exportDirectusCollectionsProperties (collect schemas)).

Definition exportCollectionsType (argv : Argv) : string := allCollectionsType argv.

Definition source (argv : Argv) (base : string) (schemas : Schemas) : string :=
  join [ "declare global {";
         base;
         exportAppCollectionsType argv schemas;
         exportDirectusCollectionsType argv schemas;
         exportCollectionsType argv;
         exportAllCollectionsTypes schemas;
         "}" ] LF.

(** Everything after [assertSpecHasNoErrors(spec)]. *)
Definition afterValidation (w : World) (argv : Argv) (s : SpecResponse) : M unit :=
  dumpSpec w argv s ;;;
  base <- baseSource w s ;;
  schemas <- schemasOf s ;;
  write w (outFile argv) (Text (source argv base schemas)).

Definition main (w : World) (argv : Argv) : M unit :=
  s <- fetched w argv ;;
  assertSpecHasNoErrors s ;;;
  afterValidation w argv s.

End CliTs.

(** ** The compiled [cli.js] *)

Module CliJs.
Import Js Script.

Definition isUserCollection (schemaKey : string) : bool :=
  startsWith schemaKey "Items".

(** [`  ${collectionId}: components["schemas"]["${schemaKey}"];`] *)
Definition line (schemaKey : string) (schema : Schema) : string :=
  "  " ++ interpolate (x_collection schema) ++ ": " ++ schemaRef schemaKey.

Definition lineOf (entry : string * Schema) : string := line (fst entry) (snd entry).

Record Arrays : Type := mkArrays {
  exportUserCollectionsProperties : list string;
  exportDirectusCollectionsProperties : list string
}.

Definition emptyArrays : Arrays := mkArrays [] [].

(** One iteration of [for (const [schemaKey, schema] of Object.entries(...))]. *)
Definition loopBody (st : Arrays) (entry : string * Schema) : Arrays :=
  let '(schemaKey, schema) := entry in
  if isUserCollection schemaKey
  then mkArrays (push (exportUserCollectionsProperties st) (line schemaKey schema))
                (exportDirectusCollectionsProperties st)
  else mkArrays (exportUserCollectionsProperties st)
                (push (exportDirectusCollectionsProperties st) (line schemaKey schema)).

Definition collect (schemas : Schemas) : Arrays :=
  fold_left loopBody (Object_entries schemas) emptyArrays.

Definition exportUserCollectionsType (argv : Argv) (schemas : Schemas) : string :=
  collectionsType (appTypeName argv) (exportUserCollectionsProperties (collect schemas)).

Definition exportDirectusCollectionsType (argv : Argv) (schemas : Schemas) : string :=
  collectionsType (directusTypeName argv)
                  (exportDirectusCollectionsProperties (collect schemas)).

Definition exportAllCollectionsType (argv : Argv) : string := allCollectionsType argv.

Definition source (argv : Argv) (base : string) (schemas : Schemas) : string :=
  join [ base;
         exportUserCollectionsType argv schemas;
         exportDirectusCollectionsType argv schemas;
         exportAllCollectionsType argv ] LF.

Definition afterValidation (w : World) (argv : Argv) (s : SpecResponse) : M unit :=
  dumpSpec w argv s ;;;
  base <- baseSource w s ;;
  schemas <- schemasOf s ;;
  write w (outFile argv) (Text (source argv base schemas)).

Definition main (w : World) (argv : Argv) : M unit :=
  s <- fetched w argv ;;
  assertSpecHasNoErrors s ;;;
  afterValidation w argv s.

End CliJs.

(** ** The generated text as TypeScript declarations

    What the script adds to the converter's text is a list of type aliases:
    the two aggregates, object type literals with one property per key; the
    all-collections alias, the intersection of the names of the two; and,
    in [src/cli.ts], one alias per schema key for the type of that schema.
    [printAlias] prints an alias the way the templates of the script do.
    [membersOf] reads the property names of a type expression once its
    references are resolved among the declarations: those of a literal are
    its own, those of an intersection are the ones of either side.  A name
    refers to a declaration when exactly one declaration bears it; a name
    declared twice is a duplicate identifier and refers to none.  The
    declarations inside the converter's text are not part of this view. *)

Module Ts.
Import Js Script.

Record Property : Type := mkProperty {
  quoted : bool;
  propName : string;
  schemaKey : string
}.

Inductive TypeExpr : Type :=
| TypeLiteral (members : list Property)
| TypeRef (name : string)
| Intersection (l r : TypeExpr)
| SchemaAccess (key : string).

Record TypeAlias : Type := mkTypeAlias {
  aliasName : string;
  aliasBody : TypeExpr
}.




(** The declarations that bear a name, and the one a name refers to. *)
Definition declarationsOf (decls : list TypeAlias) (name : string) : list TypeAlias :=
  filter (fun d => String.eqb (aliasName d) name) decls.

Definition declared (decls : list TypeAlias) (name : string) : option TypeExpr :=
  match declarationsOf decls name with
  | [d] => Some (aliasBody d)
  | _ => None
  end.

(** Property names of a type expression; [fuel] bounds the depth to which
    references are followed; [None] is a name that refers to no declaration,
    a schema type (whose properties are the converter's matter) or no
    fuel. *)
Fixpoint membersOf (fuel : nat) (decls : list TypeAlias) (e : TypeExpr)
  : option (list string) :=
  match fuel with
  | O => None
  | S fuel' =>
      match e with
      | TypeLiteral members => Some (map propName members)
      | TypeRef name =>
          match declared decls name with
          | Some body => membersOf fuel' decls body
          | None => None
          end
      | Intersection l r =>
          match membersOf fuel' decls l, membersOf fuel' decls r with
          | Some ml, Some mr => Some (ml ++ mr)%list
          | _, _ => None
          end
      | SchemaAccess _ => None
      end
  end.

(** The three aggregates of a run, in the order they are printed. *)
Definition aggregates (argv : Argv) (appMembers directusMembers : list Property)
  : list TypeAlias :=
  [ mkTypeAlias (appTypeName argv) (TypeLiteral appMembers);
    mkTypeAlias (directusTypeName argv) (TypeLiteral directusMembers);
    mkTypeAlias (allTypeName argv)
      (Intersection (TypeRef (directusTypeName argv)) (TypeRef (appTypeName argv))) ].

(** The declarations of [src/cli.ts]: the aggregates, then the aliases. *)
Definition cliTsProperty (key : string) : Property :=
  mkProperty true (CliTs.formatedSchemaKey key) key.

Definition cliTsAlias (key : string) : TypeAlias :=
  mkTypeAlias (CliTs.formatedSchemaKey key) (SchemaAccess key).

Definition aliasedKeys (schemas : Schemas) : list string :=
  filter (fun k => negb (String.eqb k "x-metadata")) (Object_keys schemas).

Definition cliTsDeclarations (argv : Argv) (schemas : Schemas) : list TypeAlias :=
  (aggregates argv
     (map cliTsProperty (filter CliTs.isAppCollection (Object_keys schemas)))
     (map cliTsProperty
          (filter (fun k => negb (CliTs.isAppCollection k)) (Object_keys schemas)))
   ++ map cliTsAlias (aliasedKeys schemas))%list.






End Ts.

(** ** Shapes of traces and texts used in the statements *)

Definition isFetch (e : Event) : bool :=
  match e with Fetch _ => true | _ => false end.

Definition isWriteFile (e : Event) : bool :=
  match e with WriteFile _ _ _ => true | _ => false end.

Definition isOpenApiTs (e : Event) : bool :=
  match e with OpenApiTs _ => true | _ => false end.

(** The requests of a run, in order. *)
Definition requests (t : list Event) : list Request :=
  flat_map (fun e => match e with Fetch r => [r] | _ => [] end) t.

(** The first thing the script does with a document that passed the
    validation: the dump when a dump file is configured, the conversion
    otherwise. *)
Definition firstStage (w : World) (argv : Argv) (s : SpecResponse) : Event :=
  match specOutFile argv with
  | Some file =>
      if String.eqb file EmptyString then OpenApiTs s
      else WriteFile (path_resolve_cwd w file) (JSON_stringify s 2) "utf-8"
  | None => OpenApiTs s
  end.

(** Some sample values for the closed examples. *)
Module Sample.

Definition argv : Argv :=
  mkArgv "http://localhost:8055" "admin@example.com" "secret" true
         "AppCollections" "DirectusCollections" "Collections" None "types.d.ts".

Definition schemas : Schemas :=
  [ ("ItemsArticle", mkSchema (Some "article"));
    ("Users", mkSchema (Some "directus_users"));
    ("x-metadata", mkSchema None);
    ("Activity", mkSchema (Some "directus_activity")) ].

Definition failed : SpecResponse :=
  mkSpecResponse (Some [JsObject [("message", JsString "Forbidden")]]) None.

Definition emptyErrors : SpecResponse :=
  mkSpecResponse (Some []) (Some schemas).

Definition world (s : SpecResponse) : World :=
  mkWorld (fun path base => Returns (base ++ path))
          (fun _ => Returns (Some "jwt"))
          (fun _ => Returns s)
          (fun _ => Returns ("export interface components {}" ++ Js.LF))
          (fun _ _ => Returns tt)
          (fun file => "/work/" ++ file).

End Sample.

(** ** The two builds side by side, and more shapes of events *)

Inductive Build : Type := cli_ts | cli_js.

Definition sourceOf (b : Build) : Argv -> string -> Schemas -> string :=
  match b with cli_ts => CliTs.source | cli_js => CliJs.source end.

Definition afterValidationOf (b : Build) : World -> Argv -> SpecResponse -> M unit :=
  match b with cli_ts => CliTs.afterValidation | cli_js => CliJs.afterValidation end.

Definition mainOf (b : Build) : World -> Argv -> M unit :=
  match b with cli_ts => CliTs.main | cli_js => CliJs.main end.

(** The write of the output file and the write of the dump, as events. *)
Definition finalWrite (w : World) (argv : Argv) (text : string) : Event :=
  WriteFile (path_resolve_cwd w (outFile argv)) (Text text) "utf-8".

Definition dumpWrite (w : World) (file : string) (s : SpecResponse) : Event :=
  WriteFile (path_resolve_cwd w file) (JSON_stringify s 2) "utf-8".

Definition isTextWrite (e : Event) : bool :=
  match e with WriteFile _ (Text _) _ => true | _ => false end.

Definition isDumpWrite (e : Event) : bool :=
  match e with WriteFile _ (JSON_stringify _ _) _ => true | _ => false end.

Definition isConsoleError (e : Event) : bool :=
  match e with ConsoleError _ => true | _ => false end.

(** An event with the text of a written file blanked. *)
Definition eraseText (e : Event) : Event :=
  match e with
  | WriteFile path (Text _) encoding => WriteFile path (Text EmptyString) encoding
  | _ => e
  end.

(** More sample values: a login with e-mail and password, a world whose
    login endpoint rejects, one whose file system refuses every write. *)
Module Scenario.

Definition loginArgv : Argv :=
  mkArgv "http://localhost:8055" "admin@example.com" "secret" false
         "AppCollections" "DirectusCollections" "Collections"
         (Some "spec.json") "types.d.ts".

Definition document : SpecResponse := mkSpecResponse None (Some Sample.schemas).

Definition noSchemas : SpecResponse := mkSpecResponse (Some []) None.

Definition loginRejects : World :=
  mkWorld (fun path base => Returns (base ++ path))
          (fun _ => Throws (Rejected "fetch failed"))
          (fun _ => Returns document)
          (fun _ => Returns ("export interface components {}" ++ Js.LF))
          (fun _ _ => Returns tt)
          (fun file => "/work/" ++ file).

Definition readOnly (s : SpecResponse) : World :=
  mkWorld (fun path base => Returns (base ++ path))
          (fun _ => Returns (Some "jwt"))
          (fun _ => Returns s)
          (fun _ => Returns ("export interface components {}" ++ Js.LF))
          (fun _ _ => Throws (Rejected "EROFS"))
          (fun file => "/work/" ++ file).


End Scenario.

(** * Facts about the helpers *)

Section Strings.

Lemma string_app_assoc (a b c : string) : (a ++ b) ++ c = a ++ b ++ c.
Proof. induction a as [|x a IH]; simpl; [reflexivity | now rewrite IH]. Qed.

Lemma string_length_app (a b : string) :
  String.length (a ++ b) = String.length a + String.length b.
Proof. induction a as [|x a IH]; simpl; [reflexivity | now rewrite IH]. Qed.

(** Two concatenations that agree and whose heads have the same length
    agree part by part. *)
Lemma string_app_inv_length (a b c d : string) :
  a ++ b = c ++ d -> String.length a = String.length c -> a = c /\ b = d.
Proof.
  revert c; induction a as [|x a IH]; intros [|y c]; simpl; intros E L;
    try discriminate.
  - now split.
  - injection E as -> E. injection L as L.
    destruct (IH c E L) as [-> ->]. now split.
Qed.

Lemma string_app_inv_head (a b c : string) : a ++ b = a ++ c -> b = c.
Proof. intros E. now apply (string_app_inv_length a b a c). Qed.

Lemma startsWith_app (p rest : string) : Js.startsWith (p ++ rest) p = true.
Proof.
  induction p as [|x p IH]; simpl; [reflexivity|].
  now rewrite Ascii.eqb_refl, IH.
Qed.

Lemma startsWith_inv (s p : string) :
  Js.startsWith s p = true -> exists rest, s = p ++ rest.
Proof.
  revert s; induction p as [|x p IH]; intros s H; simpl in *.
  - now exists s.
  - destruct s as [|y s]; [discriminate|].
    apply andb_true_iff in H as [Hc Hs].
    apply Ascii.eqb_eq in Hc as ->.
    destruct (IH s Hs) as [rest ->]. now exists rest.
Qed.

Lemma slice_app (p rest : string) : Js.slice (p ++ rest) (String.length p) = rest.
Proof. induction p as [|x p IH]; simpl; [reflexivity | exact IH]. Qed.

(** A line built around one text twice determines that text. *)
Lemma twice_inj (m e a b : string) : a ++ m ++ a ++ e = b ++ m ++ b ++ e -> a = b.
Proof.
  intros E.
  assert (L : String.length a = String.length b).
  { apply (f_equal String.length) in E.
    rewrite !string_length_app in E. lia. }
  now destruct (string_app_inv_length _ _ _ _ E L).
Qed.

End Strings.

(** Brings both sides of an equation between texts to one shape and
    compares them. *)
Ltac same_text :=
  unfold Js.LF, Js.DQ; repeat (progress (simpl; rewrite ?string_app_assoc)); reflexivity.

(** * The enumeration of the keys of an object *)

Section Enumeration.

Example arrayIndex_samples :
  arrayIndex "0" = Some 0%N /\ arrayIndex "7" = Some 7%N /\
  arrayIndex "4294967294" = Some 4294967294%N /\
  arrayIndex "4294967295" = None /\ arrayIndex "07" = None /\
  arrayIndex "7a" = None /\ arrayIndex "Users" = None /\ arrayIndex EmptyString = None.
Proof. repeat split; reflexivity. Qed.

Example Object_keys_sample :
  Object_keys [("b", mkSchema None); ("10", mkSchema None); ("a", mkSchema None);
               ("9", mkSchema None)]
  = ["9"; "10"; "b"; "a"].
Proof. reflexivity. Qed.

Lemma insertIndexed_Permutation (n : N) (e : string * Schema)
  (l : list (N * (string * Schema))) :
  Permutation (insertIndexed n e l) ((n, e) :: l).
Proof.
  induction l as [|[m e'] l IH]; simpl; [reflexivity|].
  destruct (N.leb n m); [reflexivity|].
  rewrite IH. apply perm_swap.
Qed.

(** Enumerating an object reorders its properties and loses none. *)
Lemma Object_entries_Permutation (o : Schemas) : Permutation (Object_entries o) o.
Proof.
  unfold Object_entries, namedProperties, isArrayIndex.
  induction o as [|e o IH]; simpl; [constructor|].
  destruct (arrayIndex (fst e)) as [n|]; simpl.
  - rewrite insertIndexed_Permutation. simpl. now constructor.
  - rewrite <- Permutation_middle. now constructor.
Qed.

Lemma Object_keys_Permutation (o : Schemas) : Permutation (Object_keys o) (map fst o).
Proof. apply Permutation_map, Object_entries_Permutation. Qed.

Lemma In_Object_keys (o : Schemas) (key : string) :
  In key (Object_keys o) <-> In key (map fst o).
Proof.
  split; apply Permutation_in;
    [|apply Permutation_sym]; apply Object_keys_Permutation.
Qed.

Lemma Object_keys_length (o : Schemas) : List.length (Object_keys o) = List.length o.
Proof.
  rewrite (Permutation_length (Object_keys_Permutation o)). apply length_map.
Qed.

Lemma wellFormed_keys (o : Schemas) : wellFormed o -> NoDup (Object_keys o).
Proof.
  intros H. eapply Permutation_NoDup; [|exact H].
  apply Permutation_sym, Object_keys_Permutation.
Qed.

(** Without array indices among the keys the enumeration is the order of
    creation. *)
Lemma Object_entries_named (o : Schemas) :
  (forall e, In e o -> isArrayIndex (fst e) = false) -> Object_entries o = o.
Proof.
  unfold Object_entries, namedProperties, isArrayIndex.
  induction o as [|e o IH]; intros H; simpl; [reflexivity|].
  pose proof (H e (or_introl eq_refl)) as He. unfold isArrayIndex in He.
  destruct (arrayIndex (fst e)); [discriminate|]. simpl.
  assert (Hidx : indexedProperties o = []).
  { clear IH He. induction o as [|e' o IHo]; simpl; [reflexivity|].
    pose proof (H e' (or_intror (or_introl eq_refl))) as He'. unfold isArrayIndex in He'.
    destruct (arrayIndex (fst e')); [discriminate|].
    apply IHo. intros x [<-|Hx]; apply H; simpl; auto. }
  rewrite Hidx in *. simpl in *. f_equal. apply IH.
  intros x Hx. apply H. now right.
Qed.

Lemma Object_keys_named (o : Schemas) :
  (forall e, In e o -> isArrayIndex (fst e) = false) -> Object_keys o = map fst o.
Proof. intros H. unfold Object_keys. now rewrite Object_entries_named. Qed.

Lemma Object_keys_split (o : Schemas) :
  Object_keys o
  = (map (fun p => fst (snd p)) (indexedProperties o) ++ map fst (namedProperties o))%list.
Proof. unfold Object_keys, Object_entries. now rewrite map_app, map_map. Qed.

(** The indexed part is in ascending order of the indices. *)
Lemma insertIndexed_Sorted (n : N) (e : string * Schema)
  (l : list (N * (string * Schema))) :
  Sorted N.le (map fst l) -> Sorted N.le (map fst (insertIndexed n e l)).
Proof.
  induction l as [|[m e'] l IH]; simpl; intros Hs.
  - repeat constructor.
  - destruct (N.leb n m) eqn:Hnm; simpl.
    + constructor; [exact Hs|]. constructor. now apply N.leb_le.
    + apply Sorted_inv in Hs as [Hs Hhd]. constructor; [now apply IH|].
      apply N.leb_gt in Hnm.
      destruct l as [|[k e''] l]; simpl.
      * constructor. lia.
      * destruct (N.leb n k); simpl; constructor; [lia|].
        now apply HdRel_inv in Hhd.
Qed.

Lemma indexedProperties_Sorted (o : Schemas) :
  Sorted N.le (map fst (indexedProperties o)).
Proof.
  induction o as [|e o IH]; simpl; [constructor|].
  destruct (arrayIndex (fst e)); [now apply insertIndexed_Sorted | exact IH].
Qed.

Lemma indexedProperties_In (o : Schemas) (n : N) (e : string * Schema) :
  In (n, e) (indexedProperties o) -> arrayIndex (fst e) = Some n /\ In e o.
Proof.
  induction o as [|e' o IH]; simpl; [tauto|].
  destruct (arrayIndex (fst e')) as [m|] eqn:Hm.
  - intros H. apply (Permutation_in _ (insertIndexed_Permutation m e' _)) in H.
    destruct H as [[= <- <-]|H]; [now split; [|left]|].
    destruct (IH H). split; [assumption | now right].
  - intros H. destruct (IH H). split; [assumption | now right].
Qed.

End Enumeration.

(** * Closed forms of the two walks *)

Section Walks.

Lemma CliTs_fold_from (keys : list string) (st : CliTs.Arrays) :
  fold_left CliTs.loopBody keys st =
  CliTs.mkArrays
    (CliTs.exportAppCollectionsProperties st
       ++ map CliTs.propertyLine (filter CliTs.isAppCollection keys))%list
    (CliTs.exportDirectusCollectionsProperties st
       ++ map CliTs.propertyLine
              (filter (fun k => negb (CliTs.isAppCollection k)) keys))%list
    (CliTs.exportAllCollectionsLines st
       ++ map CliTs.exportLine
              (filter (fun k => negb (String.eqb k "x-metadata")) keys))%list.
Proof.
  revert st; induction keys as [|k keys IH]; intros st; simpl.
  - destruct st; simpl; now rewrite !app_nil_r.
  - rewrite IH. unfold CliTs.loopBody, Js.push.
    destruct (CliTs.isAppCollection k), (String.eqb k "x-metadata");
      simpl; rewrite <- ?app_assoc; reflexivity.
Qed.

Lemma CliTs_collect_app (schemas : Schemas) :
  CliTs.exportAppCollectionsProperties (CliTs.collect schemas) =
  map CliTs.propertyLine (filter CliTs.isAppCollection (Object_keys schemas)).
Proof. unfold CliTs.collect. now rewrite CliTs_fold_from. Qed.

Lemma CliTs_collect_directus (schemas : Schemas) :
  CliTs.exportDirectusCollectionsProperties (CliTs.collect schemas) =
  map CliTs.propertyLine
      (filter (fun k => negb (CliTs.isAppCollection k)) (Object_keys schemas)).
Proof. unfold CliTs.collect. now rewrite CliTs_fold_from. Qed.

Lemma CliTs_collect_lines (schemas : Schemas) :
  CliTs.exportAllCollectionsLines (CliTs.collect schemas) =
  map CliTs.exportLine
      (filter (fun k => negb (String.eqb k "x-metadata")) (Object_keys schemas)).
Proof. unfold CliTs.collect. now rewrite CliTs_fold_from. Qed.

Lemma CliJs_fold_from (entries : list (string * Schema)) (st : CliJs.Arrays) :
  fold_left CliJs.loopBody entries st =
  CliJs.mkArrays
    (CliJs.exportUserCollectionsProperties st
       ++ map CliJs.lineOf (filter (fun e => CliJs.isUserCollection (fst e)) entries))%list
    (CliJs.exportDirectusCollectionsProperties st
       ++ map CliJs.lineOf
              (filter (fun e => negb (CliJs.isUserCollection (fst e))) entries))%list.
Proof.
  revert st; induction entries as [|[k s] entries IH]; intros st; simpl.
  - destruct st; simpl; now rewrite !app_nil_r.
  - rewrite IH. unfold Js.push.
    destruct (CliJs.isUserCollection k); simpl; rewrite <- ?app_assoc; reflexivity.
Qed.

Lemma CliJs_collect_user (schemas : Schemas) :
  CliJs.exportUserCollectionsProperties (CliJs.collect schemas) =
  map CliJs.lineOf
      (filter (fun e => CliJs.isUserCollection (fst e)) (Object_entries schemas)).
Proof. unfold CliJs.collect. now rewrite CliJs_fold_from. Qed.

Lemma CliJs_collect_directus (schemas : Schemas) :
  CliJs.exportDirectusCollectionsProperties (CliJs.collect schemas) =
  map CliJs.lineOf
      (filter (fun e => negb (CliJs.isUserCollection (fst e))) (Object_entries schemas)).
Proof. unfold CliJs.collect. now rewrite CliJs_fold_from. Qed.

Lemma In_entries (schemas : Schemas) (entry : string * Schema) :
  In entry schemas -> In entry (Object_entries schemas).
Proof.
  apply Permutation_in, Permutation_sym, Object_entries_Permutation.
Qed.

Lemma In_keys (schemas : Schemas) (key : string) (schema : Schema) :
  In (key, schema) schemas -> In key (Object_keys schemas).
Proof.
  intros H. unfold Object_keys. apply In_entries in H. now apply (in_map fst) in H.
Qed.

End Walks.

(** * The lines of [src/cli.ts] determine their key *)

Section Lines.

Lemma formatedSchemaKey_items (rest : string) :
  CliTs.formatedSchemaKey ("Items" ++ rest) = "App" ++ rest.
Proof. unfold CliTs.formatedSchemaKey. simpl. reflexivity. Qed.

Lemma formatedSchemaKey_other (key : string) :
  Js.startsWith key "Items" = false ->
  CliTs.formatedSchemaKey key = "Directus" ++ key.
Proof. intros H. unfold CliTs.formatedSchemaKey. now rewrite H. Qed.

(** Both kinds of line, as a fixed head followed by the varying text, a
    fixed middle, the varying text again and a fixed end. *)
Lemma propertyLine_items (rest : string) :
  CliTs.propertyLine ("Items" ++ rest) =
  ("  " ++ Js.DQ ++ "App")
    ++ rest ++ (Js.DQ ++ ": components[" ++ Js.DQ ++ "schemas" ++ Js.DQ ++ "][" ++ Js.DQ ++ "Items")
    ++ rest ++ (Js.DQ ++ "];").
Proof.
  unfold CliTs.propertyLine, Script.schemaRef. rewrite formatedSchemaKey_items.
  unfold Js.DQ. simpl. rewrite ?string_app_assoc. reflexivity.
Qed.

Lemma propertyLine_other (key : string) :
  Js.startsWith key "Items" = false ->
  CliTs.propertyLine key =
  ("  " ++ Js.DQ ++ "Directus")
    ++ key ++ (Js.DQ ++ ": components[" ++ Js.DQ ++ "schemas" ++ Js.DQ ++ "][" ++ Js.DQ)
    ++ key ++ (Js.DQ ++ "];").
Proof.
  intros H. unfold CliTs.propertyLine, Script.schemaRef.
  rewrite (formatedSchemaKey_other key H).
  unfold Js.DQ. simpl. rewrite ?string_app_assoc. reflexivity.
Qed.

Lemma exportLine_items (rest : string) :
  CliTs.exportLine ("Items" ++ rest) =
  "export type App"
    ++ rest ++ (" = components[" ++ Js.DQ ++ "schemas" ++ Js.DQ ++ "][" ++ Js.DQ ++ "Items")
    ++ rest ++ (Js.DQ ++ "];").
Proof.
  unfold CliTs.exportLine, Script.schemaRef. rewrite formatedSchemaKey_items.
  unfold Js.DQ. simpl. rewrite ?string_app_assoc. reflexivity.
Qed.

Lemma exportLine_other (key : string) :
  Js.startsWith key "Items" = false ->
  CliTs.exportLine key =
  "export type Directus"
    ++ key ++ (" = components[" ++ Js.DQ ++ "schemas" ++ Js.DQ ++ "][" ++ Js.DQ)
    ++ key ++ (Js.DQ ++ "];").
Proof.
  intros H. unfold CliTs.exportLine, Script.schemaRef.
  rewrite (formatedSchemaKey_other key H).
  unfold Js.DQ. simpl. rewrite ?string_app_assoc. reflexivity.
Qed.

(** Case analysis on the prefix test, exposing the rest of an "Items" key. *)
Lemma items_or_other (key : string) :
  (exists rest, key = "Items" ++ rest /\ Js.startsWith key "Items" = true)
  \/ Js.startsWith key "Items" = false.
Proof.
  destruct (Js.startsWith key "Items") eqn:E; [left | now right].
  destruct (startsWith_inv _ _ E) as [rest ->]. now exists rest.
Qed.

Lemma propertyLine_inj (a b : string) :
  CliTs.propertyLine a = CliTs.propertyLine b -> a = b.
Proof.
  destruct (items_or_other a) as [[ra [-> _]] | Ha];
    destruct (items_or_other b) as [[rb [-> _]] | Hb].
  - rewrite !propertyLine_items. intros E.
    apply string_app_inv_head, twice_inj in E. now subst.
  - rewrite propertyLine_items, (propertyLine_other b Hb). discriminate.
  - rewrite propertyLine_items, (propertyLine_other a Ha). discriminate.
  - rewrite (propertyLine_other a Ha), (propertyLine_other b Hb). intros E.
    now apply string_app_inv_head, twice_inj in E.
Qed.

Lemma exportLine_inj (a b : string) :
  CliTs.exportLine a = CliTs.exportLine b -> a = b.
Proof.
  destruct (items_or_other a) as [[ra [-> _]] | Ha];
    destruct (items_or_other b) as [[rb [-> _]] | Hb].
  - rewrite !exportLine_items. intros E.
    apply string_app_inv_head, twice_inj in E. now subst.
  - rewrite exportLine_items, (exportLine_other b Hb). discriminate.
  - rewrite exportLine_items, (exportLine_other a Ha). discriminate.
  - rewrite (exportLine_other a Ha), (exportLine_other b Hb). intros E.
    now apply string_app_inv_head, twice_inj in E.
Qed.

End Lines.

(** * Lists: filtering keeps order and splits a list in two *)

Section Lists.

Context {A B : Type}.

Lemma filter_keeps_order (f : A -> B) (p : A -> bool)
  (before : list A) (a : A) (between : list A) (b : A) (after : list A) :
  p a = true -> p b = true ->
  exists m1 m2 m3,
    map f (filter p (before ++ a :: between ++ b :: after))
    = (m1 ++ f a :: m2 ++ f b :: m3)%list.
Proof.
  intros Ha Hb.
  exists (map f (filter p before)), (map f (filter p between)), (map f (filter p after)).
  rewrite filter_app. simpl. rewrite Ha, filter_app. simpl. rewrite Hb.
  rewrite map_app. simpl. rewrite map_app. reflexivity.
Qed.

Lemma filter_split_Permutation (p : A -> bool) (l : list A) :
  Permutation (filter p l ++ filter (fun x => negb (p x)) l) l.
Proof.
  induction l as [|x l IH]; simpl; [constructor|].
  destruct (p x); simpl.
  - now constructor.
  - apply Permutation_sym, Permutation_cons_app, Permutation_sym, IH.
Qed.

Lemma count_occ_filter (dec : forall x y : A, {x = y} + {x <> y})
  (p : A -> bool) (l : list A) (x : A) :
  count_occ dec (filter p l) x = if p x then count_occ dec l x else 0.
Proof.
  induction l as [|y l IH]; simpl; [now destruct (p x)|].
  destruct (p y) eqn:Hy; simpl; destruct (dec y x) as [->|Hne];
    rewrite ?IH, ?Hy; reflexivity.
Qed.

End Lists.

(** * The partition of the schema keys *)

Section Partition.

(** The sample document of the spec: keys ["ItemsArticle"; "Users"]. *)
Example partition_of_ItemsArticle_Users :
  let doc := [("ItemsArticle", mkSchema None); ("Users", mkSchema None)] in
  CliTs.exportAppCollectionsProperties (CliTs.collect doc) =
    [ "  " ++ Js.DQ ++ "AppArticle" ++ Js.DQ ++ ": components[" ++ Js.DQ ++ "schemas"
        ++ Js.DQ ++ "][" ++ Js.DQ ++ "ItemsArticle" ++ Js.DQ ++ "];" ] /\
  CliTs.exportDirectusCollectionsProperties (CliTs.collect doc) =
    [ "  " ++ Js.DQ ++ "DirectusUsers" ++ Js.DQ ++ ": components[" ++ Js.DQ ++ "schemas"
        ++ Js.DQ ++ "][" ++ Js.DQ ++ "Users" ++ Js.DQ ++ "];" ].
Proof. split; reflexivity. Qed.

(** C1.  A schema key that begins with "Items" puts its property line in the
    app list.  In [src/cli.ts] the property is named by the key with its
    leading "Items" replaced by "App"; in the compiled [cli.js] it is named
    by the entry's [x-collection] annotation, as it stands. *)
Theorem items_key_is_app_property
  (schemas : Schemas) (key : string) (schema : Schema)
  (Hentry : In (key, schema) schemas)
  (Hitems : Js.startsWith key "Items" = true) :
  (exists rest,
      key = "Items" ++ rest /\
      CliTs.formatedSchemaKey key = "App" ++ rest /\
      In ("  " ++ Js.DQ ++ "App" ++ rest ++ Js.DQ ++ ": " ++ Script.schemaRef key)
         (CliTs.exportAppCollectionsProperties (CliTs.collect schemas))) /\
  (forall collectionId, x_collection schema = Some collectionId ->
      In ("  " ++ collectionId ++ ": " ++ Script.schemaRef key)
         (CliJs.exportUserCollectionsProperties (CliJs.collect schemas))).
Proof.
  split.
  - destruct (startsWith_inv _ _ Hitems) as [rest Hkey]. exists rest.
    split; [exact Hkey|]. split; [subst key; apply formatedSchemaKey_items|].
    rewrite CliTs_collect_app.
    replace ("  " ++ Js.DQ ++ "App" ++ rest ++ Js.DQ ++ ": " ++ Script.schemaRef key)
      with (CliTs.propertyLine key).
    + apply in_map, filter_In. split; [eapply In_keys; eassumption | exact Hitems].
    + unfold CliTs.propertyLine. subst key. rewrite formatedSchemaKey_items.
      unfold Js.DQ. simpl. rewrite ?string_app_assoc. reflexivity.
  - intros collectionId Hid. rewrite CliJs_collect_user.
    replace ("  " ++ collectionId ++ ": " ++ Script.schemaRef key)
      with (CliJs.lineOf (key, schema)).
    + apply in_map, filter_In. split; [now apply In_entries | exact Hitems].
    + unfold CliJs.lineOf, CliJs.line. simpl. now rewrite Hid.
Qed.

Lemma items_key_is_app_property_witness :
  (exists rest,
      "ItemsArticle" = "Items" ++ rest /\
      CliTs.formatedSchemaKey "ItemsArticle" = "App" ++ rest /\
      In ("  " ++ Js.DQ ++ "App" ++ rest ++ Js.DQ ++ ": " ++ Script.schemaRef "ItemsArticle")
         (CliTs.exportAppCollectionsProperties (CliTs.collect Sample.schemas))) /\
  (forall collectionId, Some "article" = Some collectionId ->
      In ("  " ++ collectionId ++ ": " ++ Script.schemaRef "ItemsArticle")
         (CliJs.exportUserCollectionsProperties (CliJs.collect Sample.schemas))).
Proof.
  apply (items_key_is_app_property Sample.schemas "ItemsArticle"
           (mkSchema (Some "article"))).
  - simpl. left. reflexivity.
  - reflexivity.
Defined.

(** C2.  A schema key that does not begin with "Items" puts its property
    line in the directus list; in [src/cli.ts] the property is named by the
    key with "Directus" in front. *)
Theorem other_key_is_directus_property
  (schemas : Schemas) (key : string) (schema : Schema)
  (Hentry : In (key, schema) schemas)
  (Hother : Js.startsWith key "Items" = false) :
  CliTs.formatedSchemaKey key = "Directus" ++ key /\
  In ("  " ++ Js.DQ ++ "Directus" ++ key ++ Js.DQ ++ ": " ++ Script.schemaRef key)
     (CliTs.exportDirectusCollectionsProperties (CliTs.collect schemas)) /\
  In (CliJs.line key schema)
     (CliJs.exportDirectusCollectionsProperties (CliJs.collect schemas)).
Proof.
  split; [now apply formatedSchemaKey_other|]. split.
  - rewrite CliTs_collect_directus.
    replace ("  " ++ Js.DQ ++ "Directus" ++ key ++ Js.DQ ++ ": " ++ Script.schemaRef key)
      with (CliTs.propertyLine key).
    + apply in_map, filter_In. split; [eapply In_keys; eassumption|].
      cbv beta. unfold CliTs.isAppCollection. now rewrite Hother.
    + unfold CliTs.propertyLine. rewrite (formatedSchemaKey_other key Hother).
      unfold Js.DQ. simpl. rewrite ?string_app_assoc. reflexivity.
  - rewrite CliJs_collect_directus.
    change (CliJs.line key schema) with (CliJs.lineOf (key, schema)).
    apply in_map, filter_In. split; [now apply In_entries|].
    cbv beta. unfold CliJs.isUserCollection. cbn [fst]. now rewrite Hother.
Qed.

Lemma other_key_is_directus_property_witness :
  CliTs.formatedSchemaKey "Users" = "Directus" ++ "Users" /\
  In ("  " ++ Js.DQ ++ "Directus" ++ "Users" ++ Js.DQ ++ ": " ++ Script.schemaRef "Users")
     (CliTs.exportDirectusCollectionsProperties (CliTs.collect Sample.schemas)) /\
  In (CliJs.line "Users" (mkSchema (Some "directus_users")))
     (CliJs.exportDirectusCollectionsProperties (CliJs.collect Sample.schemas)).
Proof.
  apply (other_key_is_directus_property Sample.schemas "Users"
           (mkSchema (Some "directus_users"))).
  - simpl. right. left. reflexivity.
  - reflexivity.
Defined.

(** C6, as the script has it.  Each list holds its lines in the order in
    which [Object.keys] (or [Object.entries]) enumerates the schema object:
    a list is the enumeration, restricted to the keys of its category, line
    by line, and two keys of one category that follow each other in the
    enumeration have their lines in that order.  The enumeration has the
    keys that are array indices first, by ascending index, and then every
    other key as created, which is the order of the document for them; a
    document without array indices among its keys is enumerated as it
    stands.  Nothing is sorted alphabetically. *)
Theorem property_lines_keep_enumeration_order (schemas : Schemas) :
  CliTs.exportAppCollectionsProperties (CliTs.collect schemas)
    = map CliTs.propertyLine (filter CliTs.isAppCollection (Object_keys schemas)) /\
  CliTs.exportDirectusCollectionsProperties (CliTs.collect schemas)
    = map CliTs.propertyLine
          (filter (fun k => negb (CliTs.isAppCollection k)) (Object_keys schemas)) /\
  CliJs.exportUserCollectionsProperties (CliJs.collect schemas)
    = map CliJs.lineOf
          (filter (fun e => CliJs.isUserCollection (fst e)) (Object_entries schemas)) /\
  CliJs.exportDirectusCollectionsProperties (CliJs.collect schemas)
    = map CliJs.lineOf
          (filter (fun e => negb (CliJs.isUserCollection (fst e))) (Object_entries schemas)) /\
  (forall before k1 between k2 after,
      Object_keys schemas = (before ++ k1 :: between ++ k2 :: after)%list ->
      CliTs.isAppCollection k1 = CliTs.isAppCollection k2 ->
      exists m1 m2 m3,
        (if CliTs.isAppCollection k1
         then CliTs.exportAppCollectionsProperties (CliTs.collect schemas)
         else CliTs.exportDirectusCollectionsProperties (CliTs.collect schemas))
        = (m1 ++ CliTs.propertyLine k1 :: m2 ++ CliTs.propertyLine k2 :: m3)%list) /\
  (forall before e1 between e2 after,
      Object_entries schemas = (before ++ e1 :: between ++ e2 :: after)%list ->
      CliJs.isUserCollection (fst e1) = CliJs.isUserCollection (fst e2) ->
      exists m1 m2 m3,
        (if CliJs.isUserCollection (fst e1)
         then CliJs.exportUserCollectionsProperties (CliJs.collect schemas)
         else CliJs.exportDirectusCollectionsProperties (CliJs.collect schemas))
        = (m1 ++ CliJs.lineOf e1 :: m2 ++ CliJs.lineOf e2 :: m3)%list) /\
  Object_keys schemas
    = (map (fun p => fst (snd p)) (indexedProperties schemas)
         ++ map fst (filter (fun e => negb (isArrayIndex (fst e))) schemas))%list /\
  Sorted N.le (map fst (indexedProperties schemas)) /\
  (forall n e, In (n, e) (indexedProperties schemas) ->
      arrayIndex (fst e) = Some n /\ In e schemas) /\
  ((forall e, In e schemas -> isArrayIndex (fst e) = false) ->
      Object_keys schemas = map fst schemas /\ Object_entries schemas = schemas) /\
  CliTs.exportDirectusCollectionsProperties
      (CliTs.collect [("Users", mkSchema None); ("Activity", mkSchema None)])
    = [CliTs.propertyLine "Users"; CliTs.propertyLine "Activity"].
Proof.
  split; [apply CliTs_collect_app|].
  split; [apply CliTs_collect_directus|].
  split; [apply CliJs_collect_user|].
  split; [apply CliJs_collect_directus|].
  split; [|split; [|split; [apply Object_keys_split|]]].
  - intros before k1 between k2 after Hkeys Hsame.
    rewrite CliTs_collect_app, CliTs_collect_directus, Hkeys.
    destruct (CliTs.isAppCollection k1) eqn:H1.
    + apply filter_keeps_order; [exact H1 | now rewrite <- Hsame].
    + apply filter_keeps_order; cbv beta; rewrite <- ?Hsame, ?H1; reflexivity.
  - intros before e1 between e2 after Hentries Hsame.
    rewrite CliJs_collect_user, CliJs_collect_directus.
    rewrite Hentries.
    destruct (CliJs.isUserCollection (fst e1)) eqn:H1.
    + apply filter_keeps_order; [exact H1 | now rewrite <- Hsame].
    + apply filter_keeps_order; cbv beta; rewrite <- ?Hsame, ?H1; reflexivity.
  - split; [apply indexedProperties_Sorted|].
    split; [apply indexedProperties_In|].
    split; [|reflexivity].
    intros Hnamed. split; [now apply Object_keys_named | now apply Object_entries_named].
Qed.

Lemma property_lines_keep_enumeration_order_witness :
  (exists m1 m2 m3,
      CliTs.exportDirectusCollectionsProperties (CliTs.collect Sample.schemas)
      = (m1 ++ CliTs.propertyLine "Users" :: m2 ++ CliTs.propertyLine "Activity" :: m3)%list)
  /\ Object_keys Sample.schemas = map fst Sample.schemas.
Proof.
  destruct (property_lines_keep_enumeration_order Sample.schemas)
    as (_ & _ & _ & _ & Horder & _ & _ & _ & _ & Hnamed & _).
  split.
  - apply (Horder ["ItemsArticle"] "Users" ["x-metadata"] "Activity" []); reflexivity.
  - apply Hnamed. intros e He. simpl in He.
    repeat (destruct He as [<-|He]; [reflexivity|]). destruct He.
Defined.

(** C6, as the spec has it, fails: a key that is an array index is
    enumerated before a key the document holds earlier.  For the document
    with the keys "Users" and "7", in this order, the directus list has the
    line of "7" first. *)
Lemma array_index_key_is_enumerated_first :
  let doc := [("Users", mkSchema None); ("7", mkSchema None)] in
  wellFormed doc /\
  Object_keys doc = ["7"; "Users"] /\
  CliTs.exportDirectusCollectionsProperties (CliTs.collect doc)
    = [CliTs.propertyLine "7"; CliTs.propertyLine "Users"] /\
  CliTs.exportDirectusCollectionsProperties (CliTs.collect doc)
    <> map CliTs.propertyLine
           (filter (fun k => negb (CliTs.isAppCollection k)) (map fst doc)) /\
  CliJs.exportDirectusCollectionsProperties (CliJs.collect doc)
    <> map CliJs.lineOf
           (filter (fun e => negb (CliJs.isUserCollection (fst e))) doc).
Proof.
  cbv zeta. split; [|split; [reflexivity|split; [reflexivity|split]]].
  - unfold wellFormed. simpl. repeat (constructor; [simpl; intuition discriminate|]).
    constructor.
  - vm_compute. discriminate.
  - vm_compute. discriminate.
Qed.

(** C7.  In [src/cli.ts] every key of the schema object other than
    "x-metadata" has its alias among the alias lines: for a key "Items"
    followed by some rest the line
    [export type App<rest> = components["schemas"]["Items<rest>"];], for any
    other key the line
    [export type Directus<key> = components["schemas"]["<key>"];].  The key
    "x-metadata" has none: the alias lines are, in the order of the
    enumeration, those of the keys other than "x-metadata", every one of
    them is such a line for such a key, and
    [export type Directusx-metadata = components["schemas"]["x-metadata"];]
    is not among them. *)
Theorem alias_for_every_key_but_x_metadata (schemas : Schemas) :
  CliTs.exportAllCollectionsLines (CliTs.collect schemas)
    = map CliTs.exportLine
          (filter (fun k => negb (String.eqb k "x-metadata")) (Object_keys schemas)) /\
  (forall rest, In ("Items" ++ rest) (map fst schemas) ->
      In ("export type App" ++ rest ++ " = components[" ++ Js.DQ ++ "schemas" ++ Js.DQ
            ++ "][" ++ Js.DQ ++ "Items" ++ rest ++ Js.DQ ++ "];")
         (CliTs.exportAllCollectionsLines (CliTs.collect schemas))) /\
  (forall key, In key (map fst schemas) -> Js.startsWith key "Items" = false ->
      key <> "x-metadata" ->
      In ("export type Directus" ++ key ++ " = components[" ++ Js.DQ ++ "schemas" ++ Js.DQ
            ++ "][" ++ Js.DQ ++ key ++ Js.DQ ++ "];")
         (CliTs.exportAllCollectionsLines (CliTs.collect schemas))) /\
  (forall l, In l (CliTs.exportAllCollectionsLines (CliTs.collect schemas)) ->
      exists key, In key (map fst schemas) /\ key <> "x-metadata" /\
        ((exists rest, key = "Items" ++ rest /\
            l = "export type App" ++ rest ++ " = components[" ++ Js.DQ ++ "schemas"
                  ++ Js.DQ ++ "][" ++ Js.DQ ++ "Items" ++ rest ++ Js.DQ ++ "];")
         \/ (Js.startsWith key "Items" = false /\
             l = "export type Directus" ++ key ++ " = components[" ++ Js.DQ ++ "schemas"
                   ++ Js.DQ ++ "][" ++ Js.DQ ++ key ++ Js.DQ ++ "];"))) /\
  ~ In ("export type Directusx-metadata = components[" ++ Js.DQ ++ "schemas" ++ Js.DQ
          ++ "][" ++ Js.DQ ++ "x-metadata" ++ Js.DQ ++ "];")
       (CliTs.exportAllCollectionsLines (CliTs.collect schemas)).
Proof.
  assert (Hitems : forall rest,
             CliTs.exportLine ("Items" ++ rest)
             = "export type App" ++ rest ++ " = components[" ++ Js.DQ ++ "schemas" ++ Js.DQ
                 ++ "][" ++ Js.DQ ++ "Items" ++ rest ++ Js.DQ ++ "];").
  { intros rest. rewrite exportLine_items. same_text. }
  assert (Hother : forall key, Js.startsWith key "Items" = false ->
             CliTs.exportLine key
             = "export type Directus" ++ key ++ " = components[" ++ Js.DQ ++ "schemas"
                 ++ Js.DQ ++ "][" ++ Js.DQ ++ key ++ Js.DQ ++ "];").
  { intros key H. rewrite (exportLine_other key H). same_text. }
  assert (Hforth : forall key, In key (map fst schemas) -> key <> "x-metadata" ->
             In (CliTs.exportLine key)
                (CliTs.exportAllCollectionsLines (CliTs.collect schemas))).
  { intros key Hk Hne. rewrite CliTs_collect_lines.
    apply in_map, filter_In. split; [now apply In_Object_keys|].
    now apply negb_true_iff, String.eqb_neq. }
  assert (Hback : forall l,
             In l (CliTs.exportAllCollectionsLines (CliTs.collect schemas)) ->
             exists key, In key (map fst schemas) /\ key <> "x-metadata" /\
                         l = CliTs.exportLine key).
  { intros l Hl. rewrite CliTs_collect_lines in Hl.
    apply in_map_iff in Hl as [key [<- Hk]].
    apply filter_In in Hk as [Hk Hne]. exists key.
    split; [now apply In_Object_keys|]. split; [|reflexivity].
    apply negb_true_iff, String.eqb_neq in Hne. exact Hne. }
  split; [apply CliTs_collect_lines|]. split; [|split; [|split]].
  - intros rest Hk. rewrite <- Hitems. apply Hforth; [exact Hk|].
    discriminate.
  - intros key Hk Hno Hne. rewrite <- (Hother key Hno). now apply Hforth.
  - intros l Hl. destruct (Hback l Hl) as [key [Hk [Hne ->]]].
    exists key. split; [exact Hk|]. split; [exact Hne|].
    destruct (items_or_other key) as [[rest [-> _]] | Hno].
    + left. exists rest. split; [reflexivity | apply Hitems].
    + right. split; [exact Hno | now apply Hother].
  - assert (Hx : "export type Directusx-metadata = components[" ++ Js.DQ ++ "schemas"
                   ++ Js.DQ ++ "][" ++ Js.DQ ++ "x-metadata" ++ Js.DQ ++ "];"
                 = CliTs.exportLine "x-metadata") by reflexivity.
    rewrite Hx. intros Hin. destruct (Hback _ Hin) as [key [_ [Hne E]]].
    apply exportLine_inj in E. congruence.
Qed.

Lemma alias_for_every_key_but_x_metadata_witness :
  In ("export type App" ++ "Article" ++ " = components[" ++ Js.DQ ++ "schemas" ++ Js.DQ
        ++ "][" ++ Js.DQ ++ "Items" ++ "Article" ++ Js.DQ ++ "];")
     (CliTs.exportAllCollectionsLines (CliTs.collect Sample.schemas)) /\
  In ("export type Directus" ++ "Users" ++ " = components[" ++ Js.DQ ++ "schemas" ++ Js.DQ
        ++ "][" ++ Js.DQ ++ "Users" ++ Js.DQ ++ "];")
     (CliTs.exportAllCollectionsLines (CliTs.collect Sample.schemas)).
Proof.
  destruct (alias_for_every_key_but_x_metadata Sample.schemas)
    as (_ & Hitems & Hother & _).
  split.
  - apply (Hitems "Article"). simpl. left. reflexivity.
  - apply (Hother "Users").
    + simpl. right. left. reflexivity.
    + reflexivity.
    + discriminate.
Defined.

(** The alias lines of the sample document. *)
Example aliases_of_the_sample :
  CliTs.exportAllCollectionsLines (CliTs.collect Sample.schemas)
  = [ "export type AppArticle = components[" ++ Js.DQ ++ "schemas" ++ Js.DQ ++ "]["
        ++ Js.DQ ++ "ItemsArticle" ++ Js.DQ ++ "];";
      "export type DirectusUsers = components[" ++ Js.DQ ++ "schemas" ++ Js.DQ ++ "]["
        ++ Js.DQ ++ "Users" ++ Js.DQ ++ "];";
      "export type DirectusActivity = components[" ++ Js.DQ ++ "schemas" ++ Js.DQ ++ "]["
        ++ Js.DQ ++ "Activity" ++ Js.DQ ++ "];" ].
Proof. reflexivity. Qed.

(** C9.  Every key of the schema object gives one property line to one of
    the two lists and none to the other, "x-metadata" included: it is a
    directus entry named "Directusx-metadata".  In [src/cli.ts] the line of
    a key occurs once in the two lists taken together, in the list its
    prefix selects; in the compiled [cli.js] the two lists together are the
    lines of the entries, each once.  In both the two lists have as many
    lines as the object has keys. *)
Theorem every_key_in_exactly_one_list (schemas : Schemas)
  (Hobject : wellFormed schemas) :
  (forall key, In key (map fst schemas) ->
      count_occ string_dec
          (CliTs.exportAppCollectionsProperties (CliTs.collect schemas))
          (CliTs.propertyLine key)
      + count_occ string_dec
          (CliTs.exportDirectusCollectionsProperties (CliTs.collect schemas))
          (CliTs.propertyLine key) = 1 /\
      (In (CliTs.propertyLine key)
          (CliTs.exportAppCollectionsProperties (CliTs.collect schemas))
       <-> Js.startsWith key "Items" = true) /\
      (In (CliTs.propertyLine key)
          (CliTs.exportDirectusCollectionsProperties (CliTs.collect schemas))
       <-> Js.startsWith key "Items" = false)) /\
  List.length (CliTs.exportAppCollectionsProperties (CliTs.collect schemas))
    + List.length (CliTs.exportDirectusCollectionsProperties (CliTs.collect schemas))
    = List.length schemas /\
  (In "x-metadata" (map fst schemas) ->
      In ("  " ++ Js.DQ ++ "Directusx-metadata" ++ Js.DQ ++ ": "
            ++ Script.schemaRef "x-metadata")
         (CliTs.exportDirectusCollectionsProperties (CliTs.collect schemas)) /\
      ~ In (CliTs.propertyLine "x-metadata")
           (CliTs.exportAppCollectionsProperties (CliTs.collect schemas))) /\
  Permutation
    (CliJs.exportUserCollectionsProperties (CliJs.collect schemas)
       ++ CliJs.exportDirectusCollectionsProperties (CliJs.collect schemas))
    (map CliJs.lineOf schemas) /\
  List.length (CliJs.exportUserCollectionsProperties (CliJs.collect schemas))
    + List.length (CliJs.exportDirectusCollectionsProperties (CliJs.collect schemas))
    = List.length schemas.
Proof.
  rewrite CliTs_collect_app, CliTs_collect_directus,
    CliJs_collect_user, CliJs_collect_directus.
  assert (Hmem : forall key p,
             In (CliTs.propertyLine key)
                (map CliTs.propertyLine (filter p (Object_keys schemas)))
             <-> In key (map fst schemas) /\ p key = true).
  { intros key p. rewrite in_map_iff, <- In_Object_keys. split.
    - intros [k [E Hk]]. apply propertyLine_inj in E as ->. now apply filter_In.
    - intros H. exists key. split; [reflexivity | now apply filter_In]. }
  split; [|split; [|split; [|split]]].
  - intros key Hk.
    rewrite <- !(count_occ_map CliTs.propertyLine string_dec string_dec propertyLine_inj).
    rewrite !count_occ_filter.
    pose proof (proj1 (NoDup_count_occ' string_dec _) (wellFormed_keys _ Hobject) key
                      (proj2 (In_Object_keys _ _) Hk)) as Hone.
    unfold CliTs.isAppCollection. rewrite !Hmem. unfold CliTs.isAppCollection.
    destruct (Js.startsWith key "Items"); simpl; rewrite Hone; repeat split;
      try tauto; try lia; intros [_ H]; discriminate.
  - rewrite !length_map, filter_length. apply Object_keys_length.
  - intros Hk. split.
    + change ("  " ++ Js.DQ ++ "Directusx-metadata" ++ Js.DQ ++ ": "
                ++ Script.schemaRef "x-metadata")
        with (CliTs.propertyLine "x-metadata").
      apply Hmem. split; [exact Hk | reflexivity].
    + rewrite Hmem. intros [_ H]. discriminate.
  - rewrite <- map_app.
    rewrite (filter_split_Permutation _ (Object_entries schemas)).
    apply Permutation_map, Object_entries_Permutation.
  - rewrite !length_map, filter_length.
    apply Permutation_length, Object_entries_Permutation.
Qed.

Lemma every_key_in_exactly_one_list_witness :
  In ("  " ++ Js.DQ ++ "Directusx-metadata" ++ Js.DQ ++ ": "
        ++ Script.schemaRef "x-metadata")
     (CliTs.exportDirectusCollectionsProperties (CliTs.collect Sample.schemas)) /\
  ~ In (CliTs.propertyLine "x-metadata")
       (CliTs.exportAppCollectionsProperties (CliTs.collect Sample.schemas)).
Proof.
  assert (Hobject : wellFormed Sample.schemas).
  { unfold wellFormed. simpl.
    repeat (constructor; [simpl; intuition discriminate|]). constructor. }
  destruct (every_key_in_exactly_one_list Sample.schemas Hobject) as (_ & _ & Hx & _).
  apply Hx. simpl. right. right. left. reflexivity.
Defined.

End Partition.

(** * The run: token, fetch and validation *)

Section Run.

(** Splits a run into the cases of the answers it gets, innermost first. *)
Ltac run_cases :=
  repeat (cbn;
          match goal with
          | |- context [match ?x with _ => _ end] =>
              lazymatch x with
              | context [match _ with _ => _ end] => fail
              | _ => destruct x eqn:?
              end
          end).

Lemma bind_returns {A B : Type} (m : M A) (k : A -> M B) (t : list Event) (a : A) :
  m = (t, Returns a) ->
  bind m k = ((t ++ fst (k a))%list, snd (k a)).
Proof. intros ->. simpl. now destruct (k a). Qed.

Lemma bind_throws {A B : Type} (m : M A) (k : A -> M B) (t : list Event) (e : Exn) :
  m = (t, Throws e) -> bind m k = (t, Throws e).
Proof. now intros ->. Qed.

(** A property of every event of a run, stage by stage. *)
Lemma Forall_bind {A B : Type} (P : Event -> Prop) (m : M A) (k : A -> M B) :
  Forall P (fst m) -> (forall a, Forall P (fst (k a))) -> Forall P (fst (bind m k)).
Proof.
  intros Hm Hk. destruct m as [t1 [a|e]]; simpl in *; [|exact Hm].
  specialize (Hk a). destruct (k a) as [t2 r]. simpl in *.
  apply Forall_app. now split.
Qed.

Lemma Forall_await {A : Type} (P : Event -> Prop) (o : Outcome A) :
  Forall P (fst (await o)).
Proof. constructor. Qed.

Lemma Forall_ret {A : Type} (P : Event -> Prop) (a : A) : Forall P (fst (ret a)).
Proof. constructor. Qed.

Lemma Forall_throw {A : Type} (P : Event -> Prop) (e : Exn) :
  Forall P (fst (@throw A e)).
Proof. constructor. Qed.

Lemma Forall_emit (P : Event -> Prop) (e : Event) : P e -> Forall P (fst (emit e)).
Proof. intros H. simpl. now constructor. Qed.

Create HintDb run discriminated.
#[local] Hint Resolve Forall_bind Forall_await Forall_ret Forall_throw Forall_emit : run.

Lemma requests_app (t1 t2 : list Event) :
  requests (t1 ++ t2) = (requests t1 ++ requests t2)%list.
Proof. apply flat_map_app. Qed.

Lemma no_fetch_no_request (t : list Event) :
  Forall (fun e => isFetch e = false) t -> requests t = [].
Proof.
  induction 1 as [|e t He _ IH]; [reflexivity|].
  destruct e; simpl in *; try discriminate; exact IH.
Qed.

(** Up to the fetched document the script only talks to the network. *)
Lemma fetched_only_fetches (w : World) (argv : Argv) :
  Forall (fun e => isFetch e = true) (fst (Script.fetched w argv)).
Proof.
  unfold Script.fetched, Script.token, Script.spec.
  destruct (passwordIsStaticToken argv); auto 10 with run.
Qed.

(** After the validation it never does. *)
Lemma write_no_fetch (w : World) (file : string) (data : FileData) :
  Forall (fun e => isFetch e = false) (fst (Script.write w file data)).
Proof. unfold Script.write. auto with run. Qed.

Lemma dumpSpec_no_fetch (w : World) (argv : Argv) (s : SpecResponse) :
  Forall (fun e => isFetch e = false) (fst (Script.dumpSpec w argv s)).
Proof.
  unfold Script.dumpSpec.
  destruct (specOutFile argv) as [file|]; [destruct (String.eqb file EmptyString)|];
    auto using write_no_fetch with run.
Qed.

Lemma baseSource_no_fetch (w : World) (s : SpecResponse) :
  Forall (fun e => isFetch e = false) (fst (Script.baseSource w s)).
Proof. unfold Script.baseSource. auto with run. Qed.

Lemma schemasOf_no_fetch (s : SpecResponse) :
  Forall (fun e => isFetch e = false) (fst (Script.schemasOf s)).
Proof. unfold Script.schemasOf. destruct (components_schemas s); auto with run. Qed.

#[local] Hint Resolve write_no_fetch dumpSpec_no_fetch baseSource_no_fetch
  schemasOf_no_fetch : run.

Lemma CliTs_afterValidation_requests (w : World) (argv : Argv) (s : SpecResponse) :
  requests (fst (CliTs.afterValidation w argv s)) = [].
Proof.
  apply no_fetch_no_request. unfold CliTs.afterValidation. auto 10 with run.
Qed.

Lemma CliJs_afterValidation_requests (w : World) (argv : Argv) (s : SpecResponse) :
  requests (fst (CliJs.afterValidation w argv s)) = [].
Proof.
  apply no_fetch_no_request. unfold CliJs.afterValidation. auto 10 with run.
Qed.

Lemma hasErrors_iff (s : SpecResponse) :
  Script.hasErrors s = true <-> exists errs, errors s = Some errs /\ errs <> [].
Proof.
  unfold Script.hasErrors. destruct (errors s) as [[|e errs]|]; simpl; split;
    try discriminate.
  - intros [errs [[= <-] H]]. now elim H.
  - intros _. now exists (e :: errs).
  - reflexivity.
  - intros [errs [H _]]. discriminate.
Qed.

Lemma assert_passes (s : SpecResponse) :
  Script.hasErrors s = false -> Script.assertSpecHasNoErrors s = ([], Returns tt).
Proof. intros H. unfold Script.assertSpecHasNoErrors. now rewrite H. Qed.

Lemma assert_fails (s : SpecResponse) (errs : list JsValue) :
  errors s = Some errs -> errs <> [] ->
  Script.assertSpecHasNoErrors s
  = ([ConsoleError errs], Throws (Error "Could not generate TypeScript definitions")).
Proof.
  intros He Hne. unfold Script.assertSpecHasNoErrors.
  assert (H : Script.hasErrors s = true) by (apply hasErrors_iff; eauto).
  now rewrite H, He.
Qed.

(** The first stage opens the rest of the script, in both builds. *)
Lemma afterValidation_starts (w : World) (argv : Argv) (s : SpecResponse) :
  (exists rest, fst (CliTs.afterValidation w argv s) = firstStage w argv s :: rest) /\
  (exists rest, fst (CliJs.afterValidation w argv s) = firstStage w argv s :: rest).
Proof.
  unfold CliTs.afterValidation, CliJs.afterValidation, firstStage, Script.dumpSpec,
    Script.baseSource, Script.schemasOf, Script.write, bind, emit, await, ret, throw.
  split; run_cases; simpl; eexists; reflexivity.
Qed.

(** C4.  When the fetched document has a non-empty error list, the run
    prints the list and throws; nothing follows: the trace of the whole run
    is the one of the fetch with the console output at its end, and it
    holds no file write and no call of the converter. *)
Theorem errors_stop_the_run
  (w : World) (argv : Argv) (t : list Event) (s : SpecResponse) (errs : list JsValue)
  (Hfetched : Script.fetched w argv = (t, Returns s))
  (Herrors : errors s = Some errs)
  (Hnonempty : errs <> []) :
  CliTs.main w argv
    = ((t ++ [ConsoleError errs])%list,
       Throws (Error "Could not generate TypeScript definitions")) /\
  CliJs.main w argv
    = ((t ++ [ConsoleError errs])%list,
       Throws (Error "Could not generate TypeScript definitions")) /\
  Forall (fun e => isWriteFile e = false /\ isOpenApiTs e = false)
         (t ++ [ConsoleError errs]).
Proof.
  split; [|split].
  - unfold CliTs.main. rewrite (bind_returns _ _ _ _ Hfetched).
    rewrite (bind_throws _ _ _ _ (assert_fails s errs Herrors Hnonempty)).
    reflexivity.
  - unfold CliJs.main. rewrite (bind_returns _ _ _ _ Hfetched).
    rewrite (bind_throws _ _ _ _ (assert_fails s errs Herrors Hnonempty)).
    reflexivity.
  - apply Forall_app. split.
    + pose proof (fetched_only_fetches w argv) as Hf. rewrite Hfetched in Hf.
      simpl in Hf. eapply Forall_impl; [|exact Hf].
      intros [] He; simpl in *; try discriminate; now split.
    + constructor; [now split | constructor].
Qed.

Lemma errors_stop_the_run_witness :
  CliTs.main (Sample.world Sample.failed) Sample.argv
    = ([Fetch (Script.specRequest Sample.argv (Some "secret"));
        ConsoleError [JsObject [("message", JsString "Forbidden")]]],
       Throws (Error "Could not generate TypeScript definitions")).
Proof.
  apply (errors_stop_the_run (Sample.world Sample.failed) Sample.argv
           [Fetch (Script.specRequest Sample.argv (Some "secret"))]
           Sample.failed [JsObject [("message", JsString "Forbidden")]]).
  - reflexivity.
  - reflexivity.
  - discriminate.
Defined.

(** C5.  With [passwordIsStaticToken] set, obtaining the token touches
    nothing and yields the password itself; the whole run then makes one
    request only, the [GET] of the document, and its [Authorization] header
    is "Bearer " followed by the password. *)
Theorem static_token_skips_login (w : World) (argv : Argv)
  (Hstatic : passwordIsStaticToken argv = true) :
  Script.token w argv = ([], Returns (Some (password argv))) /\
  requests (fst (CliTs.main w argv))
    = [ mkRequest (host argv ++ "/server/specs/oas") "get"
                  [("Authorization", "Bearer " ++ password argv)] None ] /\
  requests (fst (CliJs.main w argv))
    = [ mkRequest (host argv ++ "/server/specs/oas") "get"
                  [("Authorization", "Bearer " ++ password argv)] None ].
Proof.
  assert (Htoken : Script.token w argv = ([], Returns (Some (password argv)))).
  { unfold Script.token. now rewrite Hstatic. }
  split; [exact Htoken|].
  assert (Hfetched : Script.fetched w argv
                     = ([Fetch (Script.specRequest argv (Some (password argv)))],
                        oas_json w (Script.specRequest argv (Some (password argv))))).
  { unfold Script.fetched. rewrite Htoken. unfold Script.spec. simpl.
    now destruct (oas_json w _). }
  unfold CliTs.main, CliJs.main. rewrite Hfetched.
  destruct (oas_json w _) as [s|e]; [|split; reflexivity].
  rewrite !(bind_returns _ _ _ _ eq_refl). cbn [fst].
  rewrite !requests_app.
  destruct (Script.hasErrors s) eqn:Herr.
  - unfold Script.assertSpecHasNoErrors. rewrite Herr. split; reflexivity.
  - rewrite !(bind_returns _ _ _ _ (assert_passes s Herr)). cbn [fst app].
    now rewrite CliTs_afterValidation_requests, CliJs_afterValidation_requests.
Qed.

Lemma static_token_skips_login_witness :
  Script.token (Sample.world Sample.emptyErrors) Sample.argv
    = ([], Returns (Some "secret")) /\
  requests (fst (CliTs.main (Sample.world Sample.emptyErrors) Sample.argv))
    = [ mkRequest "http://localhost:8055/server/specs/oas" "get"
                  [("Authorization", "Bearer secret")] None ] /\
  requests (fst (CliJs.main (Sample.world Sample.emptyErrors) Sample.argv))
    = [ mkRequest "http://localhost:8055/server/specs/oas" "get"
                  [("Authorization", "Bearer secret")] None ].
Proof.
  apply (static_token_skips_login (Sample.world Sample.emptyErrors) Sample.argv).
  reflexivity.
Defined.

(** Without the flag the first request of a run is the login. *)
Example login_without_static_token :
  let argv := mkArgv "http://localhost:8055" "admin@example.com" "secret" false
                     "AppCollections" "DirectusCollections" "Collections" None "types.d.ts" in
  requests (fst (CliTs.main (Sample.world Sample.emptyErrors) argv))
  = [ Script.loginRequest "http://localhost:8055/auth/login" argv;
      Script.specRequest argv (Some "jwt") ].
Proof. reflexivity. Qed.

(** C10.  The validation throws exactly when the document has an [errors]
    property holding a non-empty list.  A document whose [errors] is the
    empty list passes it with no output and no exception, and the run goes
    on with that document: what follows the fetch is the rest of the script
    on it, which opens with the dump of that document (when a dump file is
    configured) or with the converter called on it. *)
Theorem validation_throws_iff_errors_nonempty
  (w : World) (argv : Argv) (s : SpecResponse) :
  ((exists e, snd (Script.assertSpecHasNoErrors s) = Throws e)
   <-> exists errs, errors s = Some errs /\ errs <> []) /\
  (errors s = Some [] ->
     Script.assertSpecHasNoErrors s = ([], Returns tt) /\
     forall t, Script.fetched w argv = (t, Returns s) ->
       CliTs.main w argv
         = ((t ++ fst (CliTs.afterValidation w argv s))%list,
            snd (CliTs.afterValidation w argv s)) /\
       CliJs.main w argv
         = ((t ++ fst (CliJs.afterValidation w argv s))%list,
            snd (CliJs.afterValidation w argv s)) /\
       (exists rest, fst (CliTs.afterValidation w argv s) = firstStage w argv s :: rest) /\
       (exists rest, fst (CliJs.afterValidation w argv s) = firstStage w argv s :: rest)).
Proof.
  split.
  - rewrite <- hasErrors_iff. unfold Script.assertSpecHasNoErrors.
    destruct (Script.hasErrors s); simpl; split; try discriminate; eauto.
    intros [e He]. discriminate.
  - intros Hempty.
    assert (Hno : Script.hasErrors s = false).
    { unfold Script.hasErrors. now rewrite Hempty. }
    split; [now apply assert_passes|].
    intros t Hfetched. unfold CliTs.main, CliJs.main.
    rewrite !(bind_returns _ _ _ _ Hfetched).
    rewrite !(bind_returns _ _ _ _ (assert_passes s Hno)). cbn [fst snd app].
    repeat split; apply (afterValidation_starts w argv s).
Qed.

Lemma validation_throws_iff_errors_nonempty_witness :
  CliTs.main (Sample.world Sample.emptyErrors) Sample.argv
  = (([Fetch (Script.specRequest Sample.argv (Some "secret"))]
        ++ fst (CliTs.afterValidation (Sample.world Sample.emptyErrors) Sample.argv
                                      Sample.emptyErrors))%list,
     snd (CliTs.afterValidation (Sample.world Sample.emptyErrors) Sample.argv
                                Sample.emptyErrors)).
Proof.
  destruct (validation_throws_iff_errors_nonempty
              (Sample.world Sample.emptyErrors) Sample.argv Sample.emptyErrors)
    as [_ Hpass].
  destruct (Hpass eq_refl) as [_ Hrun].
  apply (Hrun [Fetch (Script.specRequest Sample.argv (Some "secret"))]).
  reflexivity.
Defined.

End Run.

(** * The generated declarations *)

Section Aggregates.
















(** The sample document under the default names. *)
Example members_of_Collections :
  Ts.membersOf 4 (Ts.cliTsDeclarations Sample.argv Sample.schemas) (Ts.TypeRef "Collections")
  = Some ["DirectusUsers"; "Directusx-metadata"; "DirectusActivity"; "AppArticle"].
Proof. reflexivity. Qed.


End Aggregates.

(** * The assembled text *)

Section Assembly.







End Assembly.

(** * The whole run, case by case *)

Section Runs.

(** The dump, spelled out. *)
Lemma dumpSpec_eq (w : World) (argv : Argv) (s : SpecResponse) :
  Script.dumpSpec w argv s =
  match specOutFile argv with
  | Some file =>
      if String.eqb file EmptyString then ([], Returns tt)
      else ([dumpWrite w file s],
            writeFile w (path_resolve_cwd w file) (JSON_stringify s 2))
  | None => ([], Returns tt)
  end.
Proof.
  unfold Script.dumpSpec, Script.write, dumpWrite.
  destruct (specOutFile argv) as [file|]; [|reflexivity].
  destruct (String.eqb file EmptyString); [reflexivity|].
  simpl. now destruct (writeFile w _ _).
Qed.

(** What follows the validation, by the answers the script gets. *)
Lemma afterValidationOf_eq (b : Build) (w : World) (argv : Argv) (s : SpecResponse) :
  afterValidationOf b w argv s =
  match Script.dumpSpec w argv s with
  | (td, Throws e) => (td, Throws e)
  | (td, Returns _) =>
      match openApiTs w s with
      | Throws e => ((td ++ [OpenApiTs s])%list, Throws e)
      | Returns base =>
          match components_schemas s with
          | None =>
              ((td ++ [OpenApiTs s])%list,
               Throws (TypeError "Cannot read properties of undefined"))
          | Some schemas =>
              ((td ++ [OpenApiTs s; finalWrite w argv (sourceOf b argv base schemas)])%list,
               writeFile w (path_resolve_cwd w (outFile argv))
                         (Text (sourceOf b argv base schemas)))
          end
      end
  end.
Proof.
  destruct b; unfold afterValidationOf, CliTs.afterValidation, CliJs.afterValidation,
    Script.baseSource, Script.schemasOf, Script.write, finalWrite, sourceOf;
    destruct (Script.dumpSpec w argv s) as [td [[]|e]]; simpl; try reflexivity;
    destruct (openApiTs w s) as [base|e]; simpl; try reflexivity;
    destruct (components_schemas s) as [schemas|]; simpl; try reflexivity;
    destruct (writeFile w _ _); reflexivity.
Qed.

(** The whole run, by the fetched document. *)
Lemma mainOf_eq (b : Build) (w : World) (argv : Argv) :
  mainOf b w argv =
  match Script.fetched w argv with
  | (t, Throws e) => (t, Throws e)
  | (t, Returns s) =>
      if Script.hasErrors s
      then ((t ++ [ConsoleError (match errors s with Some errs => errs | None => [] end)])%list,
            Throws (Error "Could not generate TypeScript definitions"))
      else ((t ++ fst (afterValidationOf b w argv s))%list,
            snd (afterValidationOf b w argv s))
  end.
Proof.
  destruct b; unfold mainOf, CliTs.main, CliJs.main, afterValidationOf;
    destruct (Script.fetched w argv) as [t [s|e]]; try reflexivity;
    rewrite (bind_returns _ _ _ _ eq_refl); unfold Script.assertSpecHasNoErrors;
    destruct (Script.hasErrors s); try reflexivity;
    cbn [bind ret fst snd app];
    match goal with |- context [?f w argv s] => now destruct (f w argv s) end.
Qed.

(** The token and the fetch, by the answers of the login. *)
Lemma fetched_eq (w : World) (argv : Argv) :
  Script.fetched w argv =
  if passwordIsStaticToken argv
  then ([Fetch (Script.specRequest argv (Some (password argv)))],
        oas_json w (Script.specRequest argv (Some (password argv))))
  else
    match new_URL_href w "/auth/login" (host argv) with
    | Throws e => ([], Throws e)
    | Returns href =>
        match login_access_token w (Script.loginRequest href argv) with
        | Throws e => ([Fetch (Script.loginRequest href argv)], Throws e)
        | Returns tok =>
            ([Fetch (Script.loginRequest href argv); Fetch (Script.specRequest argv tok)],
             oas_json w (Script.specRequest argv tok))
        end
    end.
Proof.
  unfold Script.fetched, Script.token, Script.spec.
  destruct (passwordIsStaticToken argv); simpl.
  - now destruct (oas_json w _).
  - destruct (new_URL_href w _ _) as [href|e]; simpl; [|reflexivity].
    destruct (login_access_token w _) as [tok|e]; simpl; [|reflexivity].
    now destruct (oas_json w _).
Qed.

Lemma afterValidationOf_requests (b : Build) (w : World) (argv : Argv) (s : SpecResponse) :
  requests (fst (afterValidationOf b w argv s)) = [].
Proof.
  destruct b; [apply CliTs_afterValidation_requests | apply CliJs_afterValidation_requests].
Qed.

Lemma mainOf_requests (b : Build) (w : World) (argv : Argv) :
  requests (fst (mainOf b w argv)) = requests (fst (Script.fetched w argv)).
Proof.
  rewrite mainOf_eq. destruct (Script.fetched w argv) as [t [s|e]]; [|reflexivity].
  destruct (Script.hasErrors s); cbn [fst]; rewrite requests_app.
  - simpl. apply app_nil_r.
  - rewrite afterValidationOf_requests. apply app_nil_r.
Qed.

(** X1.  Without the static-token flag a run makes two requests, in this
    order: the login, a [post] of e-mail, password and mode "json" with a
    JSON content type to the login address, and the [get] of the document,
    whose bearer is the access token of the login answer; an answer without
    an access token does not stop the run, the bearer is then the text
    "undefined". *)
Theorem login_then_document
  (b : Build) (w : World) (argv : Argv) (href : string) (tok : option string)
  (Hflag : passwordIsStaticToken argv = false)
  (Hhref : new_URL_href w "/auth/login" (host argv) = Returns href)
  (Hlogin : login_access_token w (Script.loginRequest href argv) = Returns tok) :
  requests (fst (mainOf b w argv))
  = [ mkRequest href "post" [("Content-Type", "application/json")]
                (Some (mkCredentials (email argv) (password argv) "json"));
      mkRequest (host argv ++ "/server/specs/oas") "get"
                [("Authorization",
                  match tok with
                  | Some t => "Bearer " ++ t
                  | None => "Bearer undefined"
                  end)] None ].
Proof.
  rewrite mainOf_requests, fetched_eq, Hflag, Hhref.
  fold (Script.loginRequest href argv). rewrite Hlogin.
  destruct tok; reflexivity.
Qed.

Lemma login_then_document_witness :
  requests (fst (mainOf cli_ts (Sample.world Scenario.document) Scenario.loginArgv))
  = [ mkRequest "http://localhost:8055/auth/login" "post"
                [("Content-Type", "application/json")]
                (Some (mkCredentials "admin@example.com" "secret" "json"));
      mkRequest "http://localhost:8055/server/specs/oas" "get"
                [("Authorization", "Bearer jwt")] None ].
Proof.
  apply (login_then_document cli_ts (Sample.world Scenario.document) Scenario.loginArgv
           "http://localhost:8055/auth/login" (Some "jwt")); reflexivity.
Defined.

(** X2.  Without the flag, a login address that cannot be built ends the
    run before any request, and a login that fails ends it right after the
    login request: the document is not requested, nothing is printed,
    converted or written, and the run throws what the login threw. *)
Theorem login_failure_ends_the_run
  (b : Build) (w : World) (argv : Argv)
  (Hflag : passwordIsStaticToken argv = false) :
  (forall e, new_URL_href w "/auth/login" (host argv) = Throws e ->
     mainOf b w argv = ([], Throws e)) /\
  (forall href e,
     new_URL_href w "/auth/login" (host argv) = Returns href ->
     login_access_token w (Script.loginRequest href argv) = Throws e ->
     mainOf b w argv = ([Fetch (Script.loginRequest href argv)], Throws e)).
Proof.
  split.
  - intros e He. now rewrite mainOf_eq, fetched_eq, Hflag, He.
  - intros href e Hhref He. now rewrite mainOf_eq, fetched_eq, Hflag, Hhref, He.
Qed.

Lemma login_failure_ends_the_run_witness :
  mainOf cli_ts Scenario.loginRejects Scenario.loginArgv
  = ([Fetch (Script.loginRequest "http://localhost:8055/auth/login" Scenario.loginArgv)],
     Throws (Rejected "fetch failed")).
Proof.
  destruct (login_failure_ends_the_run cli_ts Scenario.loginRejects Scenario.loginArgv
              eq_refl) as [_ H].
  apply (H "http://localhost:8055/auth/login"); reflexivity.
Defined.

(** X3.  When the request of the document fails, the run ends with that
    failure right after the request: the validation, the dump, the
    converter and the write do not happen. *)
Theorem document_failure_ends_the_run
  (b : Build) (w : World) (argv : Argv) (t : list Event) (tok : option string) (e : Exn)
  (Htoken : Script.token w argv = (t, Returns tok))
  (Hfails : oas_json w (Script.specRequest argv tok) = Throws e) :
  mainOf b w argv = ((t ++ [Fetch (Script.specRequest argv tok)])%list, Throws e).
Proof.
  rewrite mainOf_eq. unfold Script.fetched.
  rewrite (bind_returns _ _ _ _ Htoken). unfold Script.spec. simpl.
  now rewrite Hfails.
Qed.

Lemma document_failure_ends_the_run_witness :
  mainOf cli_js
         (mkWorld (fun path base => Returns (base ++ path)) (fun _ => Returns (Some "jwt"))
                  (fun _ => Throws (Rejected "ECONNREFUSED"))
                  (fun _ => Returns EmptyString) (fun _ _ => Returns tt) (fun f => f))
         Sample.argv
  = (([] ++ [Fetch (Script.specRequest Sample.argv (Some "secret"))])%list,
     Throws (Rejected "ECONNREFUSED")).
Proof.
  apply (document_failure_ends_the_run cli_js _ Sample.argv [] (Some "secret")); reflexivity.
Defined.

(** X4.  When every stage succeeds, the run is, after the requests, the dump
    if one is configured, one call of the converter on the fetched document
    and one write: the text assembled from the converter's answer and the
    schemas of that document, to the output file resolved against the
    working directory, as UTF-8.  The run then ends normally. *)
Theorem successful_run
  (b : Build) (w : World) (argv : Argv) (t td : list Event) (s : SpecResponse)
  (base : string) (schemas : Schemas)
  (Hfetched : Script.fetched w argv = (t, Returns s))
  (Hvalid : Script.hasErrors s = false)
  (Hdump : Script.dumpSpec w argv s = (td, Returns tt))
  (Hbase : openApiTs w s = Returns base)
  (Hschemas : components_schemas s = Some schemas)
  (Hwrite : writeFile w (path_resolve_cwd w (outFile argv))
                      (Text (sourceOf b argv base schemas)) = Returns tt) :
  mainOf b w argv
  = ((t ++ td ++ [ OpenApiTs s;
                   WriteFile (path_resolve_cwd w (outFile argv))
                             (Text (sourceOf b argv base schemas)) "utf-8" ])%list,
     Returns tt).
Proof.
  rewrite mainOf_eq, Hfetched, Hvalid, afterValidationOf_eq, Hdump, Hbase, Hschemas, Hwrite.
  reflexivity.
Qed.

Lemma successful_run_witness :
  mainOf cli_ts (Sample.world Scenario.document) Scenario.loginArgv
  = (([ Fetch (Script.loginRequest "http://localhost:8055/auth/login" Scenario.loginArgv);
        Fetch (Script.specRequest Scenario.loginArgv (Some "jwt")) ]
        ++ [ dumpWrite (Sample.world Scenario.document) "spec.json" Scenario.document ]
        ++ [ OpenApiTs Scenario.document;
             WriteFile "/work/types.d.ts"
               (Text (sourceOf cli_ts Scenario.loginArgv
                               ("export interface components {}" ++ Js.LF) Sample.schemas))
               "utf-8" ])%list,
     Returns tt).
Proof.
  apply (successful_run cli_ts (Sample.world Scenario.document) Scenario.loginArgv);
    reflexivity.
Defined.

(** Every way a run can go: the cases of [mainOf_eq], [afterValidationOf_eq]
    and [dumpSpec_eq], with the facts of the case in the context. *)
Ltac run_tree w argv :=
  let Hfetches := fresh "Hfetches" in
  pose proof (fetched_only_fetches w argv) as Hfetches;
  rewrite mainOf_eq in *;
  destruct (Script.fetched w argv) as [t [s|ef]] eqn:Hfetched; cbn [fst snd] in *;
  [ destruct (Script.hasErrors s) eqn:Hvalid; cbn [fst snd] in *;
    [ | rewrite afterValidationOf_eq, dumpSpec_eq in *;
        destruct (specOutFile argv) as [file|] eqn:Hfile;
        [ destruct (String.eqb file EmptyString) eqn:Hempty;
          [ | destruct (writeFile w (path_resolve_cwd w file) (JSON_stringify s 2))
                as [[]|ed] eqn:Hdumped ]
        | ];
        cbn [fst snd app] in *;
        try (destruct (openApiTs w s) as [base|eb] eqn:Hbase;
             [ destruct (components_schemas s) as [schemas|] eqn:Hschemas | ];
             cbn [fst snd app] in *) ]
  | ].

Lemma fetches_are_no_text (t : list Event) :
  Forall (fun e => isFetch e = true) t -> Forall (fun e => isTextWrite e = false) t.
Proof. apply Forall_impl. now intros []. Qed.

Lemma fetches_are_no_dump (t : list Event) :
  Forall (fun e => isFetch e = true) t -> Forall (fun e => isDumpWrite e = false) t.
Proof. apply Forall_impl. now intros []. Qed.

Lemma fetches_are_no_console (t : list Event) :
  Forall (fun e => isFetch e = true) t -> Forall (fun e => isConsoleError e = false) t.
Proof. apply Forall_impl. now intros []. Qed.

Lemma In_after (P : Event -> bool) (t l : list Event) (e : Event) :
  Forall (fun e' => P e' = false) t -> P e = true -> In e (t ++ l) -> In e l.
Proof.
  intros Ht He Hin. apply in_app_or in Hin as [Hin|Hin]; [|exact Hin].
  rewrite Forall_forall in Ht. rewrite (Ht _ Hin) in He. discriminate.
Qed.

(** X5.  The text of the output file is written at most once, as the last
    thing a run does, and only when everything before went well: the
    document passed the validation, the converter was called on it and
    answered, and the document has schemas.  What is written is the text
    assembled from that answer and these schemas, to the resolved output
    file. *)
Theorem output_is_written_last
  (b : Build) (w : World) (argv : Argv) (e : Event)
  (Hin : In e (fst (mainOf b w argv)))
  (Htext : isTextWrite e = true) :
  exists t0 s base schemas,
    fst (mainOf b w argv) = (t0 ++ [e])%list /\
    Forall (fun e' => isTextWrite e' = false) t0 /\
    e = WriteFile (path_resolve_cwd w (outFile argv))
                  (Text (sourceOf b argv base schemas)) "utf-8" /\
    In (OpenApiTs s) t0 /\
    Script.hasErrors s = false /\
    openApiTs w s = Returns base /\
    components_schemas s = Some schemas.
Proof.
  run_tree w argv;
    try (match type of Hin with In _ (_ ++ _) => fail 1 | _ => idtac end;
         rewrite <- (app_nil_r t) in Hin);
    apply (In_after isTextWrite _ _ _ (fetches_are_no_text _ Hfetches) Htext) in Hin;
    simpl in Hin;
    repeat match goal with
           | H : _ \/ _ |- _ => destruct H as [H|H]
           | H : _ = e |- _ => subst e; try discriminate
           | H : False |- _ => destruct H
           end.
  all: match goal with
       | Hb : openApiTs _ ?s = Returns ?base,
         Hs : components_schemas ?s = Some ?schemas
         |- exists _ _ _ _, (?t ++ ?L)%list = _ /\ _ =>
           let L0 := eval simpl in (removelast L) in
           exists (t ++ L0)%list, s, base, schemas
       end;
    rewrite <- app_assoc; repeat split; auto;
    [ apply Forall_app; split; [now apply fetches_are_no_text | repeat constructor]
    | apply in_or_app; right; simpl; auto ].
Qed.

Lemma output_is_written_last_witness :
  exists t0 s base schemas,
    fst (mainOf cli_js (Sample.world Scenario.document) Sample.argv)
      = (t0 ++ [WriteFile "/work/types.d.ts"
                  (Text (CliJs.source Sample.argv
                           ("export interface components {}" ++ Js.LF) Sample.schemas))
                  "utf-8"])%list /\
    Forall (fun e' => isTextWrite e' = false) t0 /\
    WriteFile "/work/types.d.ts"
      (Text (CliJs.source Sample.argv
               ("export interface components {}" ++ Js.LF) Sample.schemas)) "utf-8"
      = WriteFile (path_resolve_cwd (Sample.world Scenario.document) (outFile Sample.argv))
                  (Text (sourceOf cli_js Sample.argv base schemas)) "utf-8" /\
    In (OpenApiTs s) t0 /\
    Script.hasErrors s = false /\
    openApiTs (Sample.world Scenario.document) s = Returns base /\
    components_schemas s = Some schemas.
Proof.
  apply (output_is_written_last cli_js (Sample.world Scenario.document) Sample.argv).
  - simpl. right. right. left. reflexivity.
  - reflexivity.
Defined.

(** X6.  A run that ends normally has written the output file: its last
    event is the write of the output text, and that write succeeded. *)
Theorem normal_end_means_written
  (b : Build) (w : World) (argv : Argv)
  (Hend : snd (mainOf b w argv) = Returns tt) :
  exists t0 text,
    fst (mainOf b w argv)
      = (t0 ++ [WriteFile (path_resolve_cwd w (outFile argv)) (Text text) "utf-8"])%list /\
    writeFile w (path_resolve_cwd w (outFile argv)) (Text text) = Returns tt.
Proof.
  run_tree w argv; try discriminate.
  all: match goal with
       | |- exists _ _, (?t ++ ?L)%list = _ /\ _ =>
           let L0 := eval simpl in (removelast L) in
           exists (t ++ L0)%list; eexists
       end;
    rewrite <- app_assoc; split; [reflexivity | exact Hend].
Qed.

Lemma normal_end_means_written_witness :
  exists t0 text,
    fst (mainOf cli_ts (Sample.world Scenario.document) Sample.argv)
      = (t0 ++ [WriteFile "/work/types.d.ts" (Text text) "utf-8"])%list /\
    writeFile (Sample.world Scenario.document) "/work/types.d.ts" (Text text) = Returns tt.
Proof.
  apply (normal_end_means_written cli_ts (Sample.world Scenario.document) Sample.argv).
  reflexivity.
Defined.

(** X7.  A document that passes the validation but has no
    [components.schemas] (for instance one that only carries an empty error
    list) is still dumped and handed to the converter; when the converter
    answers, reading the schemas throws a [TypeError] and the output file
    is not written. *)
Theorem missing_schemas_is_a_TypeError
  (b : Build) (w : World) (argv : Argv) (t td : list Event) (s : SpecResponse)
  (base : string)
  (Hfetched : Script.fetched w argv = (t, Returns s))
  (Hvalid : Script.hasErrors s = false)
  (Hdump : Script.dumpSpec w argv s = (td, Returns tt))
  (Hbase : openApiTs w s = Returns base)
  (Hnone : components_schemas s = None) :
  exists message,
    mainOf b w argv = ((t ++ td ++ [OpenApiTs s])%list, Throws (TypeError message)).
Proof.
  eexists. now rewrite mainOf_eq, Hfetched, Hvalid, afterValidationOf_eq, Hdump, Hbase, Hnone.
Qed.

Lemma missing_schemas_is_a_TypeError_witness :
  exists message,
    mainOf cli_ts (Sample.world Scenario.noSchemas) Scenario.loginArgv
    = (([ Fetch (Script.loginRequest "http://localhost:8055/auth/login" Scenario.loginArgv);
          Fetch (Script.specRequest Scenario.loginArgv (Some "jwt")) ]
          ++ [ dumpWrite (Sample.world Scenario.noSchemas) "spec.json" Scenario.noSchemas ]
          ++ [ OpenApiTs Scenario.noSchemas ])%list,
       Throws (TypeError message)).
Proof.
  apply (missing_schemas_is_a_TypeError cli_ts (Sample.world Scenario.noSchemas)
           Scenario.loginArgv _ _ Scenario.noSchemas
           ("export interface components {}" ++ Js.LF)); reflexivity.
Defined.

(** X8.  When the dump cannot be written the run ends there, with the
    failure of the write: the converter is not called and the output file
    is not written. *)
Theorem failed_dump_stops_the_run
  (b : Build) (w : World) (argv : Argv) (t : list Event) (s : SpecResponse)
  (file : string) (e : Exn)
  (Hfetched : Script.fetched w argv = (t, Returns s))
  (Hvalid : Script.hasErrors s = false)
  (Hfile : specOutFile argv = Some file)
  (Hnonempty : file <> EmptyString)
  (Hfails : writeFile w (path_resolve_cwd w file) (JSON_stringify s 2) = Throws e) :
  mainOf b w argv
  = ((t ++ [WriteFile (path_resolve_cwd w file) (JSON_stringify s 2) "utf-8"])%list,
     Throws e).
Proof.
  apply String.eqb_neq in Hnonempty.
  now rewrite mainOf_eq, Hfetched, Hvalid, afterValidationOf_eq, dumpSpec_eq,
    Hfile, Hnonempty, Hfails.
Qed.

Lemma failed_dump_stops_the_run_witness :
  mainOf cli_ts (Scenario.readOnly Scenario.document) Scenario.loginArgv
  = (([ Fetch (Script.loginRequest "http://localhost:8055/auth/login" Scenario.loginArgv);
        Fetch (Script.specRequest Scenario.loginArgv (Some "jwt")) ]
        ++ [WriteFile "/work/spec.json" (JSON_stringify Scenario.document 2) "utf-8"])%list,
     Throws (Rejected "EROFS")).
Proof.
  apply (failed_dump_stops_the_run cli_ts (Scenario.readOnly Scenario.document)
           Scenario.loginArgv _ Scenario.document "spec.json");
    try reflexivity.
  discriminate.
Defined.

(** X9.  A dump is written at most once, only when a non-empty dump file is
    configured (an empty path counts as none), and only after the
    validation: it is the fetched document, pretty-printed with two spaces,
    written right after the requests to the resolved dump file. *)
Theorem dump_is_of_the_validated_document
  (b : Build) (w : World) (argv : Argv) (e : Event)
  (Hin : In e (fst (mainOf b w argv)))
  (Hdump : isDumpWrite e = true) :
  exists t s file rest,
    specOutFile argv = Some file /\
    file <> EmptyString /\
    Script.fetched w argv = (t, Returns s) /\
    Script.hasErrors s = false /\
    e = WriteFile (path_resolve_cwd w file) (JSON_stringify s 2) "utf-8" /\
    fst (mainOf b w argv) = (t ++ e :: rest)%list /\
    Forall (fun e' => isDumpWrite e' = false) rest.
Proof.
  run_tree w argv;
    try (match type of Hin with In _ (_ ++ _) => fail 1 | _ => idtac end;
         rewrite <- (app_nil_r t) in Hin);
    apply (In_after isDumpWrite _ _ _ (fetches_are_no_dump _ Hfetches) Hdump) in Hin;
    simpl in Hin;
    repeat match goal with
           | H : _ \/ _ |- _ => destruct H as [H|H]
           | H : _ = e |- _ => subst e; try discriminate
           | H : False |- _ => destruct H
           end.
  all: apply String.eqb_neq in Hempty;
    exists t, s, file; eexists;
    repeat split; try reflexivity; auto; repeat constructor.
Qed.

Lemma dump_is_of_the_validated_document_witness :
  exists t s file rest,
    specOutFile Scenario.loginArgv = Some file /\
    file <> EmptyString /\
    Script.fetched (Sample.world Scenario.document) Scenario.loginArgv = (t, Returns s) /\
    Script.hasErrors s = false /\
    WriteFile "/work/spec.json" (JSON_stringify Scenario.document 2) "utf-8"
      = WriteFile (path_resolve_cwd (Sample.world Scenario.document) file)
                  (JSON_stringify s 2) "utf-8" /\
    fst (mainOf cli_ts (Sample.world Scenario.document) Scenario.loginArgv)
      = (t ++ WriteFile "/work/spec.json" (JSON_stringify Scenario.document 2) "utf-8"
           :: rest)%list /\
    Forall (fun e' => isDumpWrite e' = false) rest.
Proof.
  apply (dump_is_of_the_validated_document cli_ts (Sample.world Scenario.document)
           Scenario.loginArgv).
  - simpl. right. right. left. reflexivity.
  - reflexivity.
Defined.

(** X10.  The script prints to the console only to report the error list of
    the fetched document: whatever it prints is that list, the list is not
    empty, the print is the last event of the run and the run throws
    "Could not generate TypeScript definitions".  Failures of the network,
    the converter or the file system are not printed by the script. *)
Theorem console_output_is_the_error_list
  (b : Build) (w : World) (argv : Argv) (e : Event)
  (Hin : In e (fst (mainOf b w argv)))
  (Hconsole : isConsoleError e = true) :
  exists t s errs,
    Script.fetched w argv = (t, Returns s) /\
    errors s = Some errs /\
    errs <> [] /\
    e = ConsoleError errs /\
    mainOf b w argv
      = ((t ++ [e])%list, Throws (Error "Could not generate TypeScript definitions")).
Proof.
  run_tree w argv;
    try (match type of Hin with In _ (_ ++ _) => fail 1 | _ => idtac end;
         rewrite <- (app_nil_r t) in Hin);
    apply (In_after isConsoleError _ _ _ (fetches_are_no_console _ Hfetches) Hconsole) in Hin;
    simpl in Hin;
    repeat match goal with
           | H : _ \/ _ |- _ => destruct H as [H|H]
           | H : _ = e |- _ => subst e; try discriminate
           | H : False |- _ => destruct H
           end.
  apply hasErrors_iff in Hvalid as [errs [Herrs Hne]].
  exists t, s, errs. rewrite Herrs in *. repeat split; auto.
Qed.

Lemma console_output_is_the_error_list_witness :
  exists t s errs,
    Script.fetched (Sample.world Sample.failed) Sample.argv = (t, Returns s) /\
    errors s = Some errs /\
    errs <> [] /\
    ConsoleError [JsObject [("message", JsString "Forbidden")]] = ConsoleError errs /\
    mainOf cli_js (Sample.world Sample.failed) Sample.argv
      = ((t ++ [ConsoleError [JsObject [("message", JsString "Forbidden")]]])%list,
         Throws (Error "Could not generate TypeScript definitions")).
Proof.
  apply (console_output_is_the_error_list cli_js (Sample.world Sample.failed) Sample.argv).
  - simpl. right. left. reflexivity.
  - reflexivity.
Defined.

(** X11.  The two builds run alike: for the same arguments and the same
    world they make the same requests, print the same, dump the same, call
    the converter on the same document and write to the same output file;
    their traces differ in the text written to that file and in nothing
    else.  A run of one build that writes no output text is, event by event
    and in its outcome, a run of the other. *)
Theorem builds_differ_in_the_text_only (w : World) (argv : Argv) :
  map eraseText (fst (CliTs.main w argv)) = map eraseText (fst (CliJs.main w argv)) /\
  (Forall (fun e => isTextWrite e = false) (fst (CliTs.main w argv)) ->
   CliTs.main w argv = CliJs.main w argv).
Proof.
  change (CliTs.main w argv) with (mainOf cli_ts w argv).
  change (CliJs.main w argv) with (mainOf cli_js w argv).
  rewrite !mainOf_eq.
  destruct (Script.fetched w argv) as [t [s|e]]; [|now split].
  destruct (Script.hasErrors s); [now split|].
  rewrite !afterValidationOf_eq.
  destruct (Script.dumpSpec w argv s) as [td [[]|e]]; [|now split].
  destruct (openApiTs w s) as [base|e]; [|now split].
  destruct (components_schemas s) as [schemas|]; [|now split].
  cbn [fst snd]. split.
  - rewrite !map_app. reflexivity.
  - intros Hno. apply Forall_app in Hno as [_ Hno].
    apply Forall_app in Hno as [_ Hno].
    apply Forall_inv_tail, Forall_inv in Hno. discriminate.
Qed.

Lemma builds_differ_in_the_text_only_witness :
  CliTs.main (Sample.world Sample.failed) Sample.argv
  = CliJs.main (Sample.world Sample.failed) Sample.argv.
Proof.
  apply (builds_differ_in_the_text_only (Sample.world Sample.failed) Sample.argv).
  simpl. repeat constructor.
Defined.

End Runs.

(** * Names, categories and counts *)

Section Names.

Lemma formatedSchemaKey_inj (a b : string) :
  CliTs.formatedSchemaKey a = CliTs.formatedSchemaKey b -> a = b.
Proof.
  destruct (items_or_other a) as [[ra [-> _]] | Ha];
    destruct (items_or_other b) as [[rb [-> _]] | Hb];
    rewrite ?formatedSchemaKey_items, ?(formatedSchemaKey_other a Ha),
      ?(formatedSchemaKey_other b Hb); intros E.
  - apply (string_app_inv_head "App") in E. now subst.
  - discriminate.
  - discriminate.
  - now apply (string_app_inv_head "Directus") in E.
Qed.

Lemma NoDup_map_injective {A B : Type} (f : A -> B) (l : list A) :
  (forall x y, f x = f y -> x = y) -> NoDup l -> NoDup (map f l).
Proof.
  intros Hinj. induction 1 as [|x l Hx _ IH]; simpl; constructor; [|exact IH].
  intros Hin. apply in_map_iff in Hin as [y [E Hy]].
  apply Hinj in E. now subst.
Qed.

(** X12.  In [src/cli.ts] different schema keys never get the same
    rewritten name.  So the properties of the two aggregates taken together
    bear different names, no line occurs twice in the two lists, and no two
    aliases are the same. *)
Theorem rewritten_names_are_unique (schemas : Schemas)
  (Hobject : wellFormed schemas) :
  (forall a b, CliTs.formatedSchemaKey a = CliTs.formatedSchemaKey b -> a = b) /\
  NoDup (map CliTs.formatedSchemaKey (Object_keys schemas)) /\
  NoDup (CliTs.exportAppCollectionsProperties (CliTs.collect schemas)
           ++ CliTs.exportDirectusCollectionsProperties (CliTs.collect schemas)) /\
  NoDup (CliTs.exportAllCollectionsLines (CliTs.collect schemas)).
Proof.
  pose proof (wellFormed_keys _ Hobject) as Hkeys.
  split; [exact formatedSchemaKey_inj|]. split; [|split].
  - now apply NoDup_map_injective; [exact formatedSchemaKey_inj|].
  - rewrite CliTs_collect_app, CliTs_collect_directus, <- map_app.
    apply NoDup_map_injective; [exact propertyLine_inj|].
    eapply Permutation_NoDup; [|exact Hkeys].
    apply Permutation_sym, filter_split_Permutation.
  - rewrite CliTs_collect_lines.
    apply NoDup_map_injective; [exact exportLine_inj|]. now apply NoDup_filter.
Qed.

Lemma rewritten_names_are_unique_witness :
  NoDup (map CliTs.formatedSchemaKey (Object_keys Sample.schemas)).
Proof.
  assert (Hobject : wellFormed Sample.schemas).
  { unfold wellFormed. simpl.
    repeat (constructor; [simpl; intuition discriminate|]). constructor. }
  apply (rewritten_names_are_unique Sample.schemas Hobject).
Defined.

(** The enumeration of the keys depends on the keys only. *)
Lemma insertIndexed_keys (n : N) (e1 e2 : string * Schema)
  (l1 l2 : list (N * (string * Schema))) :
  fst e1 = fst e2 ->
  map (fun p => (fst p, fst (snd p))) l1 = map (fun p => (fst p, fst (snd p))) l2 ->
  map (fun p => (fst p, fst (snd p))) (insertIndexed n e1 l1)
  = map (fun p => (fst p, fst (snd p))) (insertIndexed n e2 l2).
Proof.
  intros He. revert l2.
  induction l1 as [|[m1 x1] l1 IH]; intros [|[m2 x2] l2] Hl; simpl in *;
    try discriminate.
  - now rewrite He.
  - injection Hl as -> Hx Hl. destruct (N.leb n m2); simpl.
    + now rewrite He, Hx, Hl.
    + rewrite Hx. f_equal. now apply IH.
Qed.

Lemma indexedProperties_keys (s1 s2 : Schemas) :
  map fst s1 = map fst s2 ->
  map (fun p => (fst p, fst (snd p))) (indexedProperties s1)
  = map (fun p => (fst p, fst (snd p))) (indexedProperties s2).
Proof.
  revert s2. induction s1 as [|e1 s1 IH]; intros [|e2 s2] H; simpl in *;
    try discriminate; [reflexivity|].
  injection H as He H. rewrite <- He.
  destruct (arrayIndex (fst e1)); [|now apply IH].
  apply insertIndexed_keys; [exact He | now apply IH].
Qed.

Lemma Object_keys_keys (s1 s2 : Schemas) :
  map fst s1 = map fst s2 -> Object_keys s1 = Object_keys s2.
Proof.
  intros H. rewrite !Object_keys_split. f_equal.
  - pose proof (indexedProperties_keys s1 s2 H) as Hi.
    apply (f_equal (map snd)) in Hi. rewrite !map_map in Hi. exact Hi.
  - unfold namedProperties. revert s2 H.
    induction s1 as [|e1 s1 IH]; intros [|e2 s2] H; simpl in *;
      try discriminate; [reflexivity|].
    injection H as He H. rewrite <- He.
    destruct (isArrayIndex (fst e1)); simpl; [now apply IH|].
    rewrite He. f_equal. now apply IH.
Qed.

(** X13.  [src/cli.ts] looks at the keys of the schema object and at nothing
    else in it: two documents with the same keys in the same order give the
    same three lists and, for the same arguments and converter text, the
    same output, whatever their [x-collection] annotations are. *)
Theorem cli_ts_reads_the_keys_only (s1 s2 : Schemas)
  (Hkeys : map fst s1 = map fst s2) :
  CliTs.collect s1 = CliTs.collect s2 /\
  forall argv base, CliTs.source argv base s1 = CliTs.source argv base s2.
Proof.
  assert (H : CliTs.collect s1 = CliTs.collect s2).
  { unfold CliTs.collect. now rewrite (Object_keys_keys s1 s2 Hkeys). }
  split; [exact H|]. intros argv base.
  unfold CliTs.source, CliTs.exportAppCollectionsType, CliTs.exportDirectusCollectionsType,
    CliTs.exportAllCollectionsTypes. now rewrite H.
Qed.

Lemma cli_ts_reads_the_keys_only_witness :
  CliTs.collect Sample.schemas
  = CliTs.collect [ ("ItemsArticle", mkSchema None); ("Users", mkSchema None);
                    ("x-metadata", mkSchema (Some "meta")); ("Activity", mkSchema None) ].
Proof.
  apply (cli_ts_reads_the_keys_only Sample.schemas). reflexivity.
Defined.

(** X14.  In the compiled [cli.js] an entry without [x-collection] is not
    skipped: it yields, in the list of its category, a property named
    [undefined] for its key. *)
Theorem unannotated_entry_is_named_undefined
  (schemas : Schemas) (key : string) (schema : Schema)
  (Hentry : In (key, schema) schemas)
  (Hnone : x_collection schema = None) :
  In ("  undefined: " ++ Script.schemaRef key)
     (if Js.startsWith key "Items"
      then CliJs.exportUserCollectionsProperties (CliJs.collect schemas)
      else CliJs.exportDirectusCollectionsProperties (CliJs.collect schemas)).
Proof.
  replace ("  undefined: " ++ Script.schemaRef key) with (CliJs.lineOf (key, schema))
    by (unfold CliJs.lineOf, CliJs.line; simpl; now rewrite Hnone).
  destruct (Js.startsWith key "Items") eqn:Hitems.
  - rewrite CliJs_collect_user. apply in_map, filter_In.
    split; [now apply In_entries | exact Hitems].
  - rewrite CliJs_collect_directus. apply in_map, filter_In.
    split; [now apply In_entries|].
    cbv beta. unfold CliJs.isUserCollection. cbn [fst]. now rewrite Hitems.
Qed.

Lemma unannotated_entry_is_named_undefined_witness :
  In ("  undefined: " ++ Script.schemaRef "x-metadata")
     (CliJs.exportDirectusCollectionsProperties (CliJs.collect Sample.schemas)).
Proof.
  apply (unannotated_entry_is_named_undefined Sample.schemas "x-metadata" (mkSchema None)).
  - simpl. right. right. left. reflexivity.
  - reflexivity.
Defined.

Lemma filter_none {A : Type} (p : A -> bool) (l : list A) :
  (forall x, In x l -> p x = false) -> filter p l = [].
Proof.
  induction l as [|x l IH]; intros H; simpl; [reflexivity|].
  rewrite (H x (or_introl eq_refl)). apply IH. intros y Hy. apply H. now right.
Qed.

Lemma In_entries_key (schemas : Schemas) (e : string * Schema) :
  In e (Object_entries schemas) -> In (fst e) (map fst schemas).
Proof.
  intros H. apply in_map.
  eapply Permutation_in; [apply Object_entries_Permutation | exact H].
Qed.

(** X15.  A category without keys gives an aggregate with an empty body, in
    both builds: when no key starts with "Items" the app aggregate is
    [export type <name> = {], an empty line and [};], and likewise the
    directus aggregate when every key starts with "Items".  For an empty
    schema object both are empty. *)
Theorem category_without_keys_is_empty (argv : Argv) (schemas : Schemas) :
  ((forall key, In key (map fst schemas) -> Js.startsWith key "Items" = false) ->
     CliTs.exportAppCollectionsType argv schemas
       = "export type " ++ appTypeName argv ++ " = {" ++ Js.LF ++ Js.LF ++ "};" ++ Js.LF /\
     CliJs.exportUserCollectionsType argv schemas
       = "export type " ++ appTypeName argv ++ " = {" ++ Js.LF ++ Js.LF ++ "};" ++ Js.LF) /\
  ((forall key, In key (map fst schemas) -> Js.startsWith key "Items" = true) ->
     CliTs.exportDirectusCollectionsType argv schemas
       = "export type " ++ directusTypeName argv ++ " = {" ++ Js.LF ++ Js.LF ++ "};" ++ Js.LF /\
     CliJs.exportDirectusCollectionsType argv schemas
       = "export type " ++ directusTypeName argv ++ " = {" ++ Js.LF ++ Js.LF ++ "};" ++ Js.LF).
Proof.
  unfold CliTs.exportAppCollectionsType, CliJs.exportUserCollectionsType,
    CliTs.exportDirectusCollectionsType, CliJs.exportDirectusCollectionsType.
  rewrite CliTs_collect_app, CliTs_collect_directus,
    CliJs_collect_user, CliJs_collect_directus.
  split; intros Hall.
  - rewrite !filter_none; [split; reflexivity | |].
    + intros e He. apply Hall. now apply In_entries_key.
    + intros key Hk. apply Hall. now apply In_Object_keys.
  - rewrite !filter_none; [split; reflexivity | |].
    + intros e He. cbv beta. unfold CliJs.isUserCollection.
      rewrite (Hall (fst e)); [reflexivity | now apply In_entries_key].
    + intros key Hk. cbv beta. unfold CliTs.isAppCollection.
      rewrite (Hall key); [reflexivity | now apply In_Object_keys].
Qed.

Lemma category_without_keys_is_empty_witness :
  CliTs.exportAppCollectionsType Sample.argv [("Users", mkSchema None)]
    = "export type " ++ "AppCollections" ++ " = {" ++ Js.LF ++ Js.LF ++ "};" ++ Js.LF /\
  CliJs.exportUserCollectionsType Sample.argv [("Users", mkSchema None)]
    = "export type " ++ "AppCollections" ++ " = {" ++ Js.LF ++ Js.LF ++ "};" ++ Js.LF.
Proof.
  apply (category_without_keys_is_empty Sample.argv [("Users", mkSchema None)]).
  intros key [<-|[]]. reflexivity.
Defined.

Lemma filter_out_count (x : string) (l : list string) :
  List.length (filter (fun k => negb (String.eqb k x)) l) + count_occ string_dec l x
  = List.length l.
Proof.
  induction l as [|y l IH]; simpl; [reflexivity|].
  destruct (string_dec y x) as [->|Hne].
  - rewrite String.eqb_refl. simpl. lia.
  - apply String.eqb_neq in Hne. rewrite Hne. simpl. lia.
Qed.

(** X16.  [src/cli.ts] emits one alias for every key of the schema object
    but "x-metadata": the aliases and the occurrences of "x-metadata" among
    the keys add up to the number of keys.  An object, which has each key
    once, gets one alias less than it has keys when it has the key
    "x-metadata", and as many as it has keys otherwise. *)
Theorem aliases_are_counted (schemas : Schemas) :
  List.length (CliTs.exportAllCollectionsLines (CliTs.collect schemas))
    + count_occ string_dec (map fst schemas) "x-metadata"
    = List.length schemas /\
  (wellFormed schemas ->
     (In "x-metadata" (map fst schemas) ->
        List.length (CliTs.exportAllCollectionsLines (CliTs.collect schemas)) + 1
        = List.length schemas) /\
     (~ In "x-metadata" (map fst schemas) ->
        List.length (CliTs.exportAllCollectionsLines (CliTs.collect schemas))
        = List.length schemas)).
Proof.
  assert (Hsum : List.length (CliTs.exportAllCollectionsLines (CliTs.collect schemas))
                   + count_occ string_dec (map fst schemas) "x-metadata"
                 = List.length schemas).
  { rewrite CliTs_collect_lines, length_map.
    rewrite <- (proj1 (Permutation_count_occ string_dec _ _)
                      (Object_keys_Permutation schemas) "x-metadata").
    rewrite filter_out_count. apply Object_keys_length. }
  split; [exact Hsum|]. intros Hobject. split; intros Hx.
  - rewrite (proj1 (NoDup_count_occ' string_dec _) Hobject _ Hx) in Hsum. exact Hsum.
  - apply (count_occ_not_In string_dec) in Hx. rewrite Hx in Hsum. lia.
Qed.

Lemma aliases_are_counted_witness :
  List.length (CliTs.exportAllCollectionsLines (CliTs.collect Sample.schemas)) + 1
  = List.length Sample.schemas.
Proof.
  assert (Hobject : wellFormed Sample.schemas).
  { unfold wellFormed. simpl.
    repeat (constructor; [simpl; intuition discriminate|]). constructor. }
  destruct (aliases_are_counted Sample.schemas) as [_ H].
  apply (H Hobject). simpl. right. right. left. reflexivity.
Defined.



End Names.
